(** * sansshell: the proxy session and the generated OneMany client surface

    A shallow embedding of
    - [proxy/server/server.go]: [Proxy], [send], [receive], [dispatch];
    - the Go code that [proxy/protoc-gen-go-grpcproxy/main.go] emits for
      every RPC method: [Recv], [CloseAndRecv] and the unary [OneMany].

    Goroutines and channels are modelled by what each goroutine observes:
    a goroutine is a function of the values its blocking operations
    deliver (the results of [stream.Recv], the branch a [select] takes,
    the items of a channel it ranges over), and it returns what it wrote
    together with [Returned err] or [Blocked] when the observations end
    before the code returns. *)

From stdpp Require Import base option list strings gmap.
From Stdlib Require Import ZArith Lia.

Local Open Scope string_scope.
Local Open Scope list_scope.
Local Open Scope Z_scope.

(** ** Go values shared by both packages *)

Module Go.

(** [google.golang.org/grpc/codes.Code]. *)
Inductive Code :=
| codes_OK | codes_Canceled | codes_Unknown | codes_InvalidArgument
| codes_DeadlineExceeded | codes_NotFound | codes_AlreadyExists
| codes_PermissionDenied | codes_ResourceExhausted
| codes_FailedPrecondition | codes_Aborted | codes_OutOfRange
| codes_Unimplemented | codes_Internal | codes_Unavailable
| codes_DataLoss | codes_Unauthenticated.

#[global] Instance Code_eq_dec : EqDecision Code.
Proof. solve_decision. Defined.

Definition Code_String (c : Code) : string :=
  match c with
  | codes_OK => "OK" | codes_Canceled => "Canceled"
  | codes_Unknown => "Unknown" | codes_InvalidArgument => "InvalidArgument"
  | codes_DeadlineExceeded => "DeadlineExceeded"
  | codes_NotFound => "NotFound" | codes_AlreadyExists => "AlreadyExists"
  | codes_PermissionDenied => "PermissionDenied"
  | codes_ResourceExhausted => "ResourceExhausted"
  | codes_FailedPrecondition => "FailedPrecondition"
  | codes_Aborted => "Aborted" | codes_OutOfRange => "OutOfRange"
  | codes_Unimplemented => "Unimplemented" | codes_Internal => "Internal"
  | codes_Unavailable => "Unavailable" | codes_DataLoss => "DataLoss"
  | codes_Unauthenticated => "Unauthenticated"
  end.

(** The non-nil values of Go's [error] interface that the code creates or
    compares against.  A value of type [error] is [option error]; [None]
    is [nil]. *)
Inductive error :=
| io_EOF
| context_Canceled
| context_DeadlineExceeded
| status_error (c : Code) (msg : string)   (* built by status.Error / status.Errorf *)
| errorString (s : string).                (* built by errors.New / fmt.Errorf *)

#[global] Instance error_eq_dec : EqDecision error.
Proof. solve_decision. Defined.

(** [err.Error()]. *)
Definition Error (e : error) : string :=
  match e with
  | io_EOF => "EOF"
  | context_Canceled => "context canceled"
  | context_DeadlineExceeded => "context deadline exceeded"
  | status_error c msg =>
      "rpc error: code = " +:+ Code_String c +:+ " desc = " +:+ msg
  | errorString s => s
  end.

(** [status.Error(c, msg)]: [status.New(c, msg).Err()], which is [nil] for
    [codes.OK]. *)
Definition status_Error (c : Code) (msg : string) : option error :=
  if decide (c = codes_OK) then None else Some (status_error c msg).

(** The verb [%v] of package [fmt] applied to a value of type [error]. *)
Definition fmt_v (e : option error) : string :=
  match e with
  | None => "<nil>"
  | Some e => Error e
  end.

(** A channel as its reader sees it: the items delivered, in order, and
    whether the writer closed it after the last one. *)
Record chan (A : Type) := mk_chan { items : list A; closed : bool }.
Arguments mk_chan {A} _ _.
Arguments items {A} _.
Arguments closed {A} _.

(** How far a goroutine got on the observations it was given. *)
Inductive task_result :=
| Returned (err : option error)
| Blocked.

End Go.

Import Go.

(** ** proxy/server/server.go *)

Module Server.

(** Modelled from the spec: the frames of section 3 (DATA MODEL); the
    generated [proxy.pb.go] that declares them is not among the sources.
    Stream ids are [uint64], carried as [Z]. *)
Record pb_StartStream := {
  StartStream_Nonce : Z;
  StartStream_Target : string;
  StartStream_MethodName : string }.

Record pb_StreamData := {
  StreamData_StreamIds : list Z;
  StreamData_Payload : list Byte.byte }.

Record pb_ClientClose := { ClientClose_StreamIds : list Z }.

Record pb_ClientCancel := { ClientCancel_StreamIds : list Z }.

(** The oneof [ProxyRequest.Request].  [ProxyRequest_other] stands for a
    discriminator the dispatcher has no case for; it carries the Go type
    name that [%T] prints. *)
Inductive isProxyRequest_Request :=
| ProxyRequest_StartStream (v : pb_StartStream)
| ProxyRequest_StreamData (v : pb_StreamData)
| ProxyRequest_ClientCancel (v : pb_ClientCancel)
| ProxyRequest_ClientClose (v : pb_ClientClose)
| ProxyRequest_other (go_type : string).

(** [Request = None] is the unset oneof (a nil interface). *)
Record pb_ProxyRequest := { Request : option isProxyRequest_Request }.

Record pb_Status := { Status_Code : Z; Status_Message : string }.

Inductive pb_ProxyReply :=
| ProxyReply_StartStreamReply (nonce : Z) (reply : Z + pb_Status)
| ProxyReply_StreamData (stream_id : Z) (payload : list Byte.byte)
| ProxyReply_ServerClose (stream_id : Z) (status : pb_Status).

(** The verb [%T] applied to [req.Request]. *)
Definition fmt_T (r : option isProxyRequest_Request) : string :=
  match r with
  | None => "<nil>"
  | Some (ProxyRequest_StartStream _) => "*proxy.ProxyRequest_StartStream"
  | Some (ProxyRequest_StreamData _) => "*proxy.ProxyRequest_StreamData"
  | Some (ProxyRequest_ClientCancel _) => "*proxy.ProxyRequest_ClientCancel"
  | Some (ProxyRequest_ClientClose _) => "*proxy.ProxyRequest_ClientClose"
  | Some (ProxyRequest_other ty) => ty
  end.

(** *** golang.org/x/sync/errgroup

    [Group] keeps the first error under a [sync.Once] and cancels the
    context derived by [WithContext] when it records it. *)
Record Group := {
  errOnce : bool;              (* the sync.Once has fired *)
  err : option error;
  ctx_cancelled : bool }.      (* cancel() of the derived context was called *)

Definition WithContext : Group :=
  {| errOnce := false; err := None; ctx_cancelled := false |}.

(** What the wrapper started by [g.Go(f)] does once [f] has returned [r]:
    [if err := f(); err != nil { g.errOnce.Do(...) }]. *)
Definition Go_exit (g : Group) (r : option error) : Group :=
  match r with
  | None => g
  | Some e =>
      if errOnce g then g
      else {| errOnce := true; err := Some e; ctx_cancelled := true |}
  end.

(** [g.Wait()], called when every function passed to [Go] has returned. *)
Definition Group_Wait (g : Group) : Group * option error :=
  ({| errOnce := errOnce g; err := err g; ctx_cancelled := true |}, err g).

(** *** Proxy *)

(** The three goroutines [Proxy] starts. *)
Inductive task := send_task | receive_task | dispatch_task.

#[global] Instance task_eq_dec : EqDecision task.
Proof. solve_decision. Defined.

(** What each of the three closures returned. *)
Record exits := {
  send_exit : option error;
  receive_exit : option error;
  dispatch_exit : option error }.

Definition exit_of (x : exits) (t : task) : option error :=
  match t with
  | send_task => send_exit x
  | receive_task => receive_exit x
  | dispatch_task => dispatch_exit x
  end.

(** The group after the tasks of [order] have returned, in that order. *)
Definition group_after (x : exits) (order : list task) : Group :=
  foldl (λ g t, Go_exit g (exit_of x t)) WithContext order.

(** [Proxy]: [order] is the order in which the three goroutines returned. *)
Definition Proxy (x : exits) (order : list task) : option error :=
  let group := group_after x order in
  let '(_, err) := Group_Wait group in
  match err with
  | Some err => status_Error codes_Internal (Error err)
  | None => None
  end.

(** *** send *)

(** [pb.Proxy_ProxyServer.Send]: the stream is a state that every call
    advances. *)
Class ServerStream (S : Type) := {
  stream_Send : S → pb_ProxyReply → S * option error }.

(** [send] ranges over [replyChan]; it returns the stream, the frames it
    handed to [stream.Send] with the error each call returned, and its own
    result. *)
Fixpoint send_range {S : Type} `{!ServerStream S} (msgs : list pb_ProxyReply)
    (chan_closed : bool) (stream : S)
    : S * list (pb_ProxyReply * option error) * task_result :=
  match msgs with
  | [] => (stream, [], if chan_closed then Returned None else Blocked)
  | msg :: msgs' =>
      let '(stream', err) := stream_Send stream msg in
      match err with
      | Some e => (stream', [(msg, err)], Returned (Some e))
      | None =>
          let '(stream'', log, r) := send_range msgs' chan_closed stream' in
          (stream'', (msg, err) :: log, r)
      end
  end.

Definition send {S : Type} `{!ServerStream S} (replyChan : chan pb_ProxyReply) (stream : S)
    : S * list (pb_ProxyReply * option error) * task_result :=
  send_range (items replyChan) (closed replyChan) stream.

(** The calls [stream.Send(msg)] for the frames [msgs], one after the
    other, with what each returns. *)
Fixpoint Send_calls {S : Type} `{!ServerStream S} (stream : S)
    (msgs : list pb_ProxyReply) : list (pb_ProxyReply * option error) :=
  match msgs with
  | [] => []
  | msg :: msgs' =>
      let '(stream', err) := stream_Send stream msg in
      (msg, err) :: Send_calls stream' msgs'
  end.

(** The stream after those calls. *)
Fixpoint Send_state {S : Type} `{!ServerStream S} (stream : S)
    (msgs : list pb_ProxyReply) : S :=
  match msgs with
  | [] => stream
  | msg :: msgs' => Send_state (stream_Send stream msg).1 msgs'
  end.

(** *** receive *)

(** What one call of [stream.Recv()] returns. *)
Inductive Recv_result :=
| Recv_ok (req : pb_ProxyRequest)
| Recv_err (e : error).

(** The branch the [select] of [receive] takes. *)
Inductive receive_select :=
| requestChan_send                 (* case requestChan <- req *)
| receive_ctx_Done (ctx_Err : error). (* case <-ctx.Done(); ctx.Err() is then non-nil *)

(** [receive]: [recvs] are the results of the successive [stream.Recv()]
    calls and [selects] the branches taken by the successive selects.  It
    returns the frames written to [requestChan] and its result. *)
Fixpoint receive (recvs : list Recv_result) (selects : list receive_select)
    : list pb_ProxyRequest * task_result :=
  match recvs with
  | [] => ([], Blocked)
  | Recv_err e :: _ =>
      if decide (e = io_EOF) then ([], Returned None)
      else ([], Returned (Some e))
  | Recv_ok req :: recvs' =>
      match selects with
      | [] => ([], Blocked)
      | requestChan_send :: selects' =>
          let '(sent, r) := receive recvs' selects' in (req :: sent, r)
      | receive_ctx_Done e :: _ => ([], Returned (Some e))
      end
  end.


(** *** dispatch *)

(** The methods of [*TargetStreamSet] that [dispatch] calls.  The stream
    set is a state; [ctx], [replyChan] and [doneChan], which [Add] also
    receives, are the session's own and are part of that state. *)
Class TargetStreamSet (T : Type) := {
  Add : T → pb_StartStream → T * option error;
  Send : T → pb_StreamData → T * option error;
  Cancel : T → pb_ClientCancel → T * option error;
  ClientClose : T → pb_ClientClose → T * option error;
  Remove : T → Z → T;
  ClientCloseAll : T → T;
  Wait : T → T }.

(** The calls [dispatch] makes on the stream set. *)
Inductive set_call :=
| call_Add (v : pb_StartStream)
| call_Send (v : pb_StreamData)
| call_Cancel (v : pb_ClientCancel)
| call_ClientClose (v : pb_ClientClose)
| call_Remove (closedStream : Z)
| call_ClientCloseAll
| call_Wait.

(** The branch the [select] of [dispatch] takes. *)
Inductive dispatch_select :=
| dispatch_ctx_Done (ctx_Err : error)       (* case <-ctx.Done() *)
| doneChan_recv (closedStream : Z)          (* case closedStream := <-doneChan *)
| requestChan_recv (req : pb_ProxyRequest)  (* case req, ok := <-requestChan, ok *)
| requestChan_closed (ctx_Err : option error).
    (* the same case with !ok; [ctx_Err] is what ctx.Err() reports once
       Wait has returned *)

(** Whether the type switch of [dispatch] has a case for the discriminator. *)
Definition known_discriminator (r : option isProxyRequest_Request) : bool :=
  match r with
  | Some (ProxyRequest_StartStream _) | Some (ProxyRequest_StreamData _)
  | Some (ProxyRequest_ClientCancel _) | Some (ProxyRequest_ClientClose _) => true
  | Some (ProxyRequest_other _) | None => false
  end.

(** Where the body of the loop leaves control. *)
Inductive flow :=
| Continue
| Return (err : option error).

(** The type switch on [req.Request]. *)
Definition dispatch_request {T : Type} `{!TargetStreamSet T} (streamSet : T)
    (req : pb_ProxyRequest) : T * list set_call * flow :=
  match Request req with
  | Some (ProxyRequest_StartStream v) =>
      let '(streamSet', _) := Add streamSet v in
      (streamSet', [call_Add v], Continue)
  | Some (ProxyRequest_StreamData v) =>
      let '(streamSet', err) := Send streamSet v in
      (streamSet', [call_Send v], if err is Some _ then Return err else Continue)
  | Some (ProxyRequest_ClientCancel v) =>
      let '(streamSet', err) := Cancel streamSet v in
      (streamSet', [call_Cancel v], if err is Some _ then Return err else Continue)
  | Some (ProxyRequest_ClientClose v) =>
      let '(streamSet', err) := ClientClose streamSet v in
      (streamSet', [call_ClientClose v], if err is Some _ then Return err else Continue)
  | r =>
      (streamSet, [],
       Return (status_Error codes_Internal ("unhandled request type " +:+ fmt_T r)))
  end.

(** One turn of the [for { select { ... } }] loop. *)
Definition dispatch_turn {T : Type} `{!TargetStreamSet T} (streamSet : T)
    (sel : dispatch_select) : T * list set_call * flow :=
  match sel with
  | dispatch_ctx_Done e => (streamSet, [], Return (Some e))
  | doneChan_recv closedStream =>
      (Remove streamSet closedStream, [call_Remove closedStream], Continue)
  | requestChan_closed ctx_Err =>
      let streamSet := ClientCloseAll streamSet in
      let streamSet := Wait streamSet in
      (streamSet, [call_ClientCloseAll; call_Wait], Return ctx_Err)
  | requestChan_recv req => dispatch_request streamSet req
  end.

Fixpoint dispatch {T : Type} `{!TargetStreamSet T} (selects : list dispatch_select)
    (streamSet : T) : T * list set_call * task_result :=
  match selects with
  | [] => (streamSet, [], Blocked)
  | sel :: selects' =>
      let '(streamSet', calls, fl) := dispatch_turn streamSet sel in
      match fl with
      | Return err => (streamSet', calls, Returned err)
      | Continue =>
          let '(streamSet'', calls', r) := dispatch selects' streamSet' in
          (streamSet'', calls ++ calls', r)
      end
  end.

(** The third closure of [Proxy] and the errgroup wrapper around it: the
    group it leaves when [dispatch] has returned. *)
Definition dispatch_goroutine {T : Type} `{!TargetStreamSet T} (g : Group)
    (selects : list dispatch_select) (streamSet : T) : Group * task_result :=
  let '(_, _, r) := dispatch selects streamSet in
  (match r with Returned err => Go_exit g err | Blocked => g end, r).

End Server.

(** ** The code emitted by proxy/protoc-gen-go-grpcproxy/main.go *)

Module Generated.

(** How a call of a generated method ends. *)
Inductive run (A : Type) :=
| Done (a : A)
| Panic          (* index out of range *)
| OutOfFuel.     (* the [for] loop was still running *)
Arguments Done {A} _.
Arguments Panic {A}.
Arguments OutOfFuel {A}.

(** [*anypb.Any]. *)
Record anypb_Any := { TypeUrl : string; Value : list Byte.byte }.

(** Modelled from the spec: the raw tagged reply of section 4.6, with the
    fields the emitted code reads ([proxy.Ret] is declared in package
    [proxy/proxy], which is not among the sources).  [Ret_Resp = None] is
    the nil pointer. *)
Record Ret := {
  Ret_Target : string;
  Ret_Index : Z;
  Ret_Resp : option anypb_Any;
  Ret_Error : option error }.

(** Modelled from the spec: the multiplexed connection of the glossary
    ([proxy.Conn], same package): the configured targets and whether the
    connection is direct, which [Direct()] reports. *)
Record Conn := { Targets : list string; direct : bool }.

Definition Direct (cc : Conn) : bool := direct cc.

(** [type <Method>ManyResponse struct], emitted at main.go:134-140. *)
Record ManyResponse (Out : Type) := {
  Target : string;
  Index : Z;
  Resp : Out;
  Error : option error }.
Arguments Target {Out} _.
Arguments Index {Out} _.
Arguments Resp {Out} _.
Arguments Error {Out} _.

(** What the generator knows of the method it emits code for. *)
Class Method (In Out : Type) := {
  service_FullName : string;
  method_Name : string;
  zero_Out : Out;                   (* &Out{} *)
  UnmarshalTo : option anypb_Any → Out → Out * option error }.
    (* r.Resp.UnmarshalTo(m): the message after the call and the error *)

(** The methods of [*proxy.Conn] that the unary code calls. *)
Class ClientConn (In Out : Type) := {
  Invoke : Conn → string → In → Out → Out * option error;
  InvokeOneMany : Conn → string → In → chan Ret * option error }.

(** [grpc.ClientStream].  [RecvMsg] takes an [interface{}]; the emitted
    code passes it a [*Out] on a direct connection and a [*[]*proxy.Ret]
    on a proxied one. *)
Class grpc_ClientStream (In Out S : Type) := {
  SendMsg : S → In → S * option error;
  CloseSend : S → S * option error;
  RecvMsg_typed : S → Out → S * Out * option error;
  RecvMsg_rets : S → list Ret → S * list Ret * option error }.

(** [type <client><Method>ClientProxy struct], emitted at main.go:160-164. *)
Record ClientProxy (S : Type) := {
  cc : Conn;
  directDone : bool;
  ClientStream : S }.
Arguments cc {S} _.
Arguments directDone {S} _.
Arguments ClientStream {S} _.

Inductive conn_call :=
| call_Invoke (method : string)
| call_InvokeOneMany (method : string).

Section Emitted.
Context {In Out S : Type}.
Context `{!Method In Out, !ClientConn In Out, !grpc_ClientStream In Out S}.

Definition full_method : string :=
  "/" +:+ service_FullName +:+ "/" +:+ method_Name.

(** main.go:247-258 and 300-317: a raw reply turned into a typed one. *)
Definition typed (r : Ret) : ManyResponse Out :=
  let typedResp :=
    {| Target := ""; Index := 0; Resp := zero_Out; Error := None |} in
  let typedResp :=
    {| Target := Ret_Target r; Index := Ret_Index r;
       Resp := Resp typedResp; Error := Ret_Error r |} in
  match Ret_Error r with
  | None =>
      let '(resp, err) := UnmarshalTo (Ret_Resp r) (Resp typedResp) in
      {| Target := Target typedResp; Index := Index typedResp; Resp := resp;
         Error :=
           match err with
           | Some _ =>
               Some (errorString
                       ("can't decode any response - " +:+ fmt_v err +:+
                        ". Original Error - " +:+ fmt_v (Ret_Error r)))
           | None => Error typedResp
           end |}
  | Some _ => typedResp
  end.

(** main.go:246-259: [for _, r := range m { ...; ret = append(ret, typedResp) }]. *)
Definition append_typed (ret : list (ManyResponse Out)) (m : list Ret)
    : list (ManyResponse Out) :=
  foldl (λ ret r, ret ++ [typed r]) ret m.

(** main.go:170-172. *)
Definition Send (x : ClientProxy S) (m : In) : ClientProxy S * option error :=
  let '(s, err) := SendMsg (ClientStream x) m in
  ({| cc := cc x; directDone := directDone x; ClientStream := s |}, err).

(** main.go:201-220: the body of [if x.cc.Direct() { ... }]. *)
Definition recv_direct (x : ClientProxy S) (ret : list (ManyResponse Out))
    : run (ClientProxy S * (list (ManyResponse Out) * option error)) :=
  if directDone x then Done (x, ([], Some io_EOF))
  else
    let m := zero_Out in
    let '(s, m, err) := RecvMsg_typed (ClientStream x) m in
    match Targets (cc x) !! 0%nat with
    | None => Panic
    | Some target =>
        let ret :=
          ret ++ [{| Resp := m; Error := err; Target := target; Index := 0 |}] in
        let done := if err is Some _ then true else directDone x in
        Done ({| cc := cc x; directDone := done; ClientStream := s |},
              (ret, None))
    end.

(** main.go:194-264 for a server-streaming or bidirectional method. *)
Definition Recv (x : ClientProxy S)
    : run (ClientProxy S * (list (ManyResponse Out) * option error)) :=
  let ret := [] in
  if Direct (cc x) then recv_direct x ret
  else
    let m := [] in
    let '(s, m, err) := RecvMsg_rets (ClientStream x) m in
    let x := {| cc := cc x; directDone := directDone x; ClientStream := s |} in
    match err with
    | Some _ => Done (x, ([], err))
    | None => Done (x, (append_typed ret m, None))
    end.

(** main.go:225-228: [eof := make(map[int]bool)] with one [false] entry
    per target index. *)
Definition eof_init (targets : list string) : gmap Z bool :=
  foldl (λ eof i, <[Z.of_nat i := false]> eof) ∅ (seq 0 (length targets)).

(** main.go:232-237: [done] is true when no value of [eof] is false. *)
Definition all_eof (eof : gmap Z bool) : bool :=
  map_fold (λ _ v done, if negb v then false else done) true eof.

(** main.go:229-261: the [for { ... }] loop of [CloseAndRecv]. *)
Fixpoint CloseAndRecv_loop (fuel : nat) (eof : gmap Z bool)
    (x : ClientProxy S) (ret : list (ManyResponse Out))
    : run (ClientProxy S * (list (ManyResponse Out) * option error)) :=
  match fuel with
  | O => OutOfFuel
  | Datatypes.S fuel =>
      let done := all_eof eof in
      if done then Done (x, (ret, None))
      else
        let m := [] in
        let '(s, m, err) := RecvMsg_rets (ClientStream x) m in
        let x := {| cc := cc x; directDone := directDone x; ClientStream := s |} in
        match err with
        | Some _ => Done (x, ([], err))
        | None => CloseAndRecv_loop fuel eof x (append_typed ret m)
        end
  end.

(** main.go:178-264 for a client-streaming method. *)
Definition CloseAndRecv (fuel : nat) (x : ClientProxy S)
    : run (ClientProxy S * (list (ManyResponse Out) * option error)) :=
  let '(s, err) := CloseSend (ClientStream x) in
  let x := {| cc := cc x; directDone := directDone x; ClientStream := s |} in
  match err with
  | Some _ => Done (x, ([], err))
  | None =>
      let ret := [] in
      if Direct (cc x) then recv_direct x ret
      else CloseAndRecv_loop fuel (eof_init (Targets (cc x))) x ret
  end.

(** main.go:298-320: the goroutine that reads [manyRet] and writes
    [ret].  It closes [ret] when it sees [manyRet] closed. *)
Fixpoint convert_goroutine (manyRet : list Ret) (manyRet_closed : bool)
    : chan (ManyResponse Out) :=
  match manyRet with
  | [] => mk_chan [] manyRet_closed
  | resp :: manyRet =>
      let ret := convert_goroutine manyRet manyRet_closed in
      mk_chan (typed resp :: items ret) (closed ret)
  end.

(** main.go:273-323: the unary [<Method>OneMany].  It returns the calls
    made on the connection, the channel and the error. *)
Definition OneMany (conn : Conn) (in_ : In)
    : list conn_call * (option (chan (ManyResponse Out)) * option error) :=
  match Targets conn with
  | [target] =>      (* len(conn.Targets) == 1, conn.Targets[0] *)
      let out :=
        {| Target := target; Index := 0; Resp := zero_Out; Error := None |} in
      let '(resp, err) := Invoke conn full_method in_ (Resp out) in
      let out :=
        {| Target := Target out; Index := Index out; Resp := resp;
           Error := if err is Some _ then err else Error out |} in
      ([call_Invoke full_method], (Some (mk_chan [out] true), None))
  | _ =>
      let '(manyRet, err) := InvokeOneMany conn full_method in_ in
      match err with
      | Some _ => ([call_InvokeOneMany full_method], (None, err))
      | None =>
          ([call_InvokeOneMany full_method],
           (Some (convert_goroutine (items manyRet) (closed manyRet)), None))
      end
  end.

(** The results of [n] successive calls of [Recv]. *)
Fixpoint Recv_calls (n : nat) (x : ClientProxy S)
    : list (run (list (ManyResponse Out) * option error)) :=
  match n with
  | O => []
  | Datatypes.S n =>
      match Recv x with
      | Done (x', res) => Done res :: Recv_calls n x'
      | Panic => [Panic]
      | OutOfFuel => [OutOfFuel]
      end
  end.

End Emitted.

End Generated.

(** ** Concrete collaborators

    Small implementations of the interfaces above, on which the code is
    run. *)

Module Scenario.
Import Server Generated.

(** A stream set that knows the ids of its open streams: [Add] opens the
    next id unless the method is unknown, the other calls fail on an id
    that is not open. *)
Record toy_set := { open_ids : list Z; next_id : Z }.

Definition toy_known (s : toy_set) (ids : list Z) : bool :=
  forallb (λ id, bool_decide (id ∈ open_ids s)) ids.

Definition toy_check (s : toy_set) (ids : list Z) : toy_set * option error :=
  (s, if toy_known s ids then None
      else Some (status_error codes_InvalidArgument "no such stream")).

#[global] Instance toy_TargetStreamSet : TargetStreamSet toy_set := {
  Add s v :=
    if decide (StartStream_MethodName v = "/S/Unknown")
    then (s, Some (status_error codes_Unimplemented "unknown method"))
    else ({| open_ids := open_ids s ++ [next_id s]; next_id := next_id s + 1 |},
          None);
  Send s v := toy_check s (StreamData_StreamIds v);
  Cancel s v := toy_check s (ClientCancel_StreamIds v);
  ClientClose s v := toy_check s (ClientClose_StreamIds v);
  Remove s id :=
    {| open_ids := filter (λ i, i ≠ id) (open_ids s); next_id := next_id s |};
  ClientCloseAll s := s;
  Wait s := {| open_ids := []; next_id := next_id s |} }.

Definition toy_empty : toy_set := {| open_ids := []; next_id := 1 |}.

(** A client stream that accepts a given number of frames and then fails
    every [Send]. *)
#[global] Instance budget_ServerStream : ServerStream nat := {
  stream_Send budget _ :=
    match budget with
    | O => (O, Some (errorString "transport is closing"))
    | Datatypes.S n => (n, None)
    end }.

(** A method whose messages are integers: a payload decodes when it is
    one byte long. *)
#[global] Instance toy_Method : Method Z Z := {
  service_FullName := "S";
  method_Name := "M";
  zero_Out := 0;
  UnmarshalTo any m :=
    match any with
    | Some {| TypeUrl := _; Value := [b] |} => (Z.of_N (Byte.to_N b), None)
    | _ => (m, Some (errorString "mismatched message type"))
    end }.

(** A client stream given by what its successive [RecvMsg] calls deliver;
    once they are used up it reports [io.EOF]. *)
Record script := {
  typed_msgs : list (Z * option error);
  ret_batches : list (list Ret * option error);
  CloseSend_err : option error }.

#[global] Instance script_ClientStream : grpc_ClientStream Z Z script := {
  SendMsg s _ := (s, None);
  CloseSend s := (s, CloseSend_err s);
  RecvMsg_typed s m :=
    match typed_msgs s with
    | [] => (s, m, Some io_EOF)
    | (m', err) :: rest =>
        ({| typed_msgs := rest; ret_batches := ret_batches s;
            CloseSend_err := CloseSend_err s |}, m', err)
    end;
  RecvMsg_rets s m :=
    match ret_batches s with
    | [] => (s, m, Some io_EOF)
    | (m', err) :: rest =>
        ({| typed_msgs := typed_msgs s; ret_batches := rest;
            CloseSend_err := CloseSend_err s |}, m', err)
    end }.

(** A connection whose backends answer a unary call on [n] with [n + 1],
    and fail on a negative [n]. *)
#[global] Instance toy_ClientConn : ClientConn Z Z := {
  Invoke _ _ n m :=
    if decide (n < 0) then (m, Some (status_error codes_InvalidArgument "negative"))
    else (n + 1, None);
  InvokeOneMany conn _ n :=
    (mk_chan
       (imap (λ i t, {| Ret_Target := t; Ret_Index := Z.of_nat i;
                        Ret_Resp := Some {| TypeUrl := "Z"; Value := [Byte.x2a] |};
                        Ret_Error := None |}) (Targets conn))
       true, None) }.

(** Two targets behind a proxy; each answers the client-streaming call
    with one message and then closes its stream, after which the proxied
    stream is at its end. *)
Definition two_targets : Conn := {| Targets := ["A"; "B"]; direct := false |}.

Definition answer (target : string) (index : Z) : Ret :=
  {| Ret_Target := target; Ret_Index := index;
     Ret_Resp := Some {| TypeUrl := "Z"; Value := [Byte.x2a] |};
     Ret_Error := None |}.

Definition closing (target : string) (index : Z) : Ret :=
  {| Ret_Target := target; Ret_Index := index; Ret_Resp := None;
     Ret_Error := Some io_EOF |}.

Definition two_targets_stream : script :=
  {| typed_msgs := [];
     ret_batches := [([answer "A" 0; answer "B" 1], None);
                     ([closing "A" 0], None);
                     ([closing "B" 1], None)];
     CloseSend_err := None |}.

Definition two_targets_call : ClientProxy script :=
  {| cc := two_targets; directDone := false; ClientStream := two_targets_stream |}.

End Scenario.

(** ** The streaming [OneMany] emitted at main.go:330-344 *)

Module GeneratedStream.
Import Generated.

(** [c.cc.NewStream(ctx, &<Service>_ServiceDesc.Streams[i], method, opts...)]:
    the stream and the error. *)
Class StreamConn (S : Type) := {
  NewStream : Conn → nat → string → S * option error }.

(** The calls the emitted code makes on the connection and on the stream
    it opened. *)
Inductive stream_call :=
| call_NewStream (index : nat) (method : string)
| call_SendMsg
| call_CloseSend.

Section Emitted.
Context {In Out S : Type}.
Context `{!Method In Out, !grpc_ClientStream In Out S, !StreamConn S}.

(** main.go:330-344: [<Method>OneMany] of a streaming method.
    [streamingClient] is [method.Desc.IsStreamingClient()] and [numStreams]
    the index the generator wrote into the text; a client-streaming method
    has no [in] parameter and [in_] is not used.  It returns the calls it
    made, the handle ([None] is nil) and the error. *)
Definition OneMany_stream (streamingClient : bool) (numStreams : nat)
    (conn : Conn) (in_ : In)
    : list stream_call * (option (ClientProxy S) * option error) :=
  let '(stream, err) := NewStream conn numStreams full_method in
  let calls := [call_NewStream numStreams full_method] in
  match err with
  | Some _ => (calls, (None, err))
  | None =>
      let x := {| cc := conn; directDone := false; ClientStream := stream |} in
      if negb streamingClient then
        let '(s, err) := SendMsg (ClientStream x) in_ in
        let x := {| cc := cc x; directDone := directDone x; ClientStream := s |} in
        let calls := calls ++ [call_SendMsg] in
        match err with
        | Some _ => (calls, (None, err))
        | None =>
            let '(s, err) := CloseSend (ClientStream x) in
            let x :=
              {| cc := cc x; directDone := directDone x; ClientStream := s |} in
            let calls := calls ++ [call_CloseSend] in
            match err with
            | Some _ => (calls, (None, err))
            | None => (calls, (Some x, None))
            end
        end
      else (calls, (Some x, None))
  end.

End Emitted.

End GeneratedStream.

(** ** The generator: proxy/protoc-gen-go-grpcproxy/main.go *)

Module Generator.

(** [protogen.GoIdent]. *)
Record GoIdent := { GoIdent_GoName : string; GoImportPath : string }.

(** [protogen.Method] with the parts of [method.Desc] that are read. *)
Record protogen_Method := {
  Method_GoName : string;
  Method_Desc_Name : string;
  IsStreamingClient : bool;
  IsStreamingServer : bool;
  Input_GoIdent : GoIdent;
  Output_GoIdent : GoIdent }.

(** [protogen.Service]. *)
Record protogen_Service := {
  Service_GoName : string;
  Service_Desc_FullName : string;
  Methods : list protogen_Method }.

(** [protogen.File]. *)
Record protogen_File := {
  Generate : bool;
  GeneratedFilenamePrefix : string;
  GoPackageName : string;
  Services : list protogen_Service }.

(** What the generator takes from its libraries: how the generated file
    spells an identifier of another package
    ([protogen.GeneratedFile.QualifiedGoIdent]) and [strings.ToLower]. *)
Class GeneratedFile := {
  QualifiedGoIdent : GoIdent → string;
  strings_ToLower : string → string }.

Definition contextPackage : string := "context".
Definition grpcPackage : string := "google.golang.org/grpc".
Definition grpcProxyPackage : string :=
  "github.com/Snowflake-Labs/sansshell/proxy/proxy".

(** [GoImportPath.Ident]. *)
Definition Ident (path name : string) : GoIdent :=
  {| GoIdent_GoName := name; GoImportPath := path |}.

(** The newline of a Go string literal. *)
Definition nl : string := String (Ascii.ascii_of_nat 10) EmptyString.

(** main.go:130, 363. *)
Definition unary (method : protogen_Method) : bool :=
  negb (IsStreamingClient method) && negb (IsStreamingServer method).

(** main.go:131. *)
Definition clientOnly (method : protogen_Method) : bool :=
  IsStreamingClient method && negb (IsStreamingServer method).

(** main.go:364. *)
Definition serverOnly (method : protogen_Method) : bool :=
  negb (IsStreamingClient method) && IsStreamingServer method.

(** main.go:354-377: [methodSignature]; the result is the line it hands
    to [g.P]. *)
Definition methodSignature `{!GeneratedFile} (genFunc : bool)
    (structName : string) (service : protogen_Service)
    (method : protogen_Method) : string :=
  let prefix := "" in
  let prefix :=
    if genFunc then
      let prefix :=
        "// " +:+ Method_GoName method +:+ "OneMany provides the same API as "
        +:+ Method_GoName method
        +:+ " but sends the same request to N destinations at once." +:+ nl in
      let prefix := prefix +:+ ("// N can be a single destination." +:+ nl) in
      let prefix :=
        prefix +:+ ("//" +:+ nl +:+
                    "// NOTE: The returned channel must be read until it closes in order to avoid leaking goroutines."
                    +:+ nl) in
      prefix +:+ ("func (c *" +:+ structName +:+ ") ")
    else prefix in
  let sig :=
    prefix +:+ Method_GoName method +:+ "OneMany(ctx "
    +:+ QualifiedGoIdent (Ident contextPackage "Context") +:+ ", " in
  let sig :=
    if unary method || serverOnly method
    then sig +:+ " in *" +:+ QualifiedGoIdent (Input_GoIdent method) +:+ ", "
    else sig in
  let brace := if genFunc then " {" else "" in
  let returnTypes := "(<-chan *" +:+ Method_GoName method +:+ "ManyResponse, error)" in
  let returnTypes :=
    if negb (unary method)
    then "(" +:+ Service_GoName service +:+ "_" +:+ Method_GoName method
         +:+ "ClientProxy, error)"
    else returnTypes in
  sig +:+ "opts ..." +:+ QualifiedGoIdent (Ident grpcPackage "CallOption")
  +:+ ") " +:+ returnTypes +:+ brace.

(** The blocks of text [generate] writes, one constructor for each run of
    [g.P] calls that is emitted together. *)
Inductive emitted :=
| Header (package : string) (needIO : bool)                  (* 64-78 *)
| ProxyInterface (name embeds : string) (sigs : list string) (* 101-108 *)
| ProxyStruct (name embeds : string)                         (* 109-113 *)
| Constructor (interfaceNameProxy clientStructProxy : string) (* 119-124 *)
| ManyResponseStruct (name : string) (resp : string)         (* 132-141 *)
| StreamInterface (name : string) (methods : list string)    (* 147-159 *)
| StreamStruct (name : string)                               (* 160-165 *)
| SendFunc (receiver : string)                               (* 170-173 *)
| CloseAndRecvHeader (receiver : string)                     (* 178-181 *)
| RecvHeader (receiver : string)                             (* 194 *)
| RecvBody (clientOnly : bool)   (* 196-264, the text that names io.EOF *)
| Signature (line : string)                                  (* 268 *)
| UnaryBody (path : string)                                  (* 273-324 *)
| StreamBody (numStreams : nat) (path : string) (sends_in : bool). (* 330-346 *)

(** main.go:129-347: one turn of the loop over [service.Methods]. *)
Definition generate_method `{!GeneratedFile} (service : protogen_Service)
    (clientStruct clientStructProxy : string)
    (state : list emitted * nat) (method : protogen_Method)
    : list emitted * nat :=
  let '(out, numStreams) := state in
  let unary := unary method in
  let clientOnly := clientOnly method in
  let out :=
    out ++ [ManyResponseStruct (Method_GoName method +:+ "ManyResponse")
              (QualifiedGoIdent (Output_GoIdent method))] in
  let methodStruct := Method_GoName method +:+ "ClientProxy" in
  let path :=
    "/" +:+ Service_Desc_FullName service +:+ "/" +:+ Method_Desc_Name method in
  let out :=
    if negb unary then
      let out :=
        out ++ [StreamInterface
                  (Service_GoName service +:+ "_" +:+ methodStruct)
                  ((if IsStreamingClient method then ["Send"] else [])
                   ++ (if clientOnly then ["CloseAndRecv"] else [])
                   ++ (if IsStreamingServer method then ["Recv"] else []))] in
      let out := out ++ [StreamStruct (clientStruct +:+ methodStruct)] in
      let funcPrelude := clientStruct +:+ methodStruct in
      let out :=
        if IsStreamingClient method then out ++ [SendFunc funcPrelude] else out in
      let out :=
        if clientOnly then out ++ [CloseAndRecvHeader funcPrelude] else out in
      if IsStreamingServer method || clientOnly then
        let out :=
          if IsStreamingServer method then out ++ [RecvHeader funcPrelude]
          else out in
        out ++ [RecvBody clientOnly]
      else out
    else out in
  let out :=
    out ++ [Signature (methodSignature true clientStructProxy service method)] in
  if unary then (out ++ [UnaryBody path], numStreams)
  else
    (out ++ [StreamBody numStreams path (negb (IsStreamingClient method))],
     (numStreams + 1)%nat).

(** main.go:80-348: one turn of the loop over [file.Services]. *)
Definition generate_service `{!GeneratedFile} (out : list emitted)
    (service : protogen_Service) : list emitted :=
  match Methods service with
  | [] => out                       (* len(service.Methods) == 0: continue *)
  | _ =>
      let interfaceName := Service_GoName service +:+ "Client" in
      let interfaceNameProxy := interfaceName +:+ "Proxy" in
      let goName :=
        strings_ToLower (String.substring 0 1 interfaceName)
        +:+ String.substring 1 (String.length interfaceName - 1)%nat
              interfaceName in
      let clientStruct := goName in
      let clientStructProxy := clientStruct +:+ "Proxy" in
      let out :=
        out ++ [ProxyInterface interfaceNameProxy interfaceName
                  (map (methodSignature false "" service) (Methods service))] in
      let out := out ++ [ProxyStruct clientStructProxy clientStruct] in
      let out := out ++ [Constructor interfaceNameProxy clientStructProxy] in
      let numStreams := 0%nat in
      fst (foldl (generate_method service clientStruct clientStructProxy)
                 (out, numStreams) (Methods service))
  end.

(** main.go:52-59. *)
Definition needIO (file : protogen_File) : bool :=
  foldl (λ needIO service,
           foldl (λ needIO method,
                    if IsStreamingServer method || IsStreamingClient method
                    then true else needIO)
                 needIO (Methods service))
        false (Services file).

(** main.go:46-349: [generate]; the name of the file it creates and the
    blocks it writes, or [None] when it returns without creating one. *)
Definition generate `{!GeneratedFile} (file : protogen_File)
    : option (string * list emitted) :=
  match Services file with
  | [] => None
  | _ =>
      let needIO := needIO file in
      let fn := GeneratedFilenamePrefix file +:+ "_grpcproxy.pb.go" in
      let out := [Header (GoPackageName file) needIO] in
      Some (fn, foldl generate_service out (Services file))
  end.

(** main.go:27-38: the files the plugin creates. *)
Definition main `{!GeneratedFile} (files : list protogen_File)
    : list (string * list emitted) :=
  foldl (λ created file,
           if negb (Generate file) then created
           else match generate file with
                | Some f => created ++ [f]
                | None => created
                end)
        [] files.

(** The function an emitted block defines on the stream handle, if it
    opens one. *)
Definition func_name (e : emitted) : option string :=
  match e with
  | SendFunc _ => Some "Send"
  | CloseAndRecvHeader _ => Some "CloseAndRecv"
  | RecvHeader _ => Some "Recv"
  | _ => None
  end.

(** The indices into [ServiceDesc.Streams] written into the text. *)
Definition stream_index (e : emitted) : option nat :=
  match e with
  | StreamBody numStreams _ _ => Some numStreams
  | _ => None
  end.

Definition is_RecvBody (e : emitted) : bool :=
  match e with RecvBody _ => true | _ => false end.

End Generator.

(** ** What the statements below read off a run *)

Module Observations.
Import Server Generated Generator.

(** The ids [dispatch] passed to [Remove]. *)
Definition removed_ids (calls : list set_call) : list Z :=
  omap (λ c, if c is call_Remove id then Some id else None) calls.

(** The ids the selects received from [doneChan]. *)
Definition done_ids (selects : list dispatch_select) : list Z :=
  omap (λ sel, if sel is doneChan_recv id then Some id else None) selects.

(** Whether one of the next [n] calls [RecvMsg(&m)] on the stream returns
    an error. *)
Fixpoint RecvMsg_fails_within {In Out S : Type}
    `{!grpc_ClientStream In Out S} (n : nat) (s : S) : bool :=
  match n with
  | O => false
  | Datatypes.S n =>
      let '(s', _, err) := RecvMsg_rets s [] in
      if err is Some _ then true else RecvMsg_fails_within n s'
  end.

(** The line of a [Signature] block. *)
Definition signature_line (e : emitted) : option string :=
  match e with
  | Signature line => Some line
  | _ => None
  end.

(** The lines of the [ProxyInterface] blocks. *)
Definition interface_lines (e : emitted) : list string :=
  match e with
  | ProxyInterface _ _ sigs => sigs
  | _ => []
  end.

(** The comment and receiver that [methodSignature] puts before a
    function. *)
Definition func_prefix (structName : string) (method : protogen_Method)
    : string :=
  "// " +:+ Method_GoName method +:+ "OneMany provides the same API as "
  +:+ Method_GoName method
  +:+ " but sends the same request to N destinations at once." +:+ nl
  +:+ "// N can be a single destination." +:+ nl
  +:+ "//" +:+ nl
  +:+ "// NOTE: The returned channel must be read until it closes in order to avoid leaking goroutines."
  +:+ nl +:+ "func (c *" +:+ structName +:+ ") ".

(** The methods a [StreamInterface] block declares. *)
Definition declared_methods (e : emitted) : list string :=
  match e with
  | StreamInterface _ methods => methods
  | _ => []
  end.

(** The [clientOnly] flag of a [RecvBody] block. *)
Definition recv_body_flag (e : emitted) : option bool :=
  match e with
  | RecvBody clientOnly => Some clientOnly
  | _ => None
  end.

(** Whether [main] gets a file out of [generate]. *)
Definition creates_file (file : protogen_File) : bool :=
  Generate file && (if Services file is [] then false else true).

End Observations.

(** ** More concrete collaborators *)

Module Scenario2.
Import Generated GeneratedStream Generator Scenario.

(** A connection that opens a stream delivering the messages 1 and 2, and
    refuses when no target is configured. *)
#[global] Instance script_StreamConn : StreamConn script := {
  NewStream conn _ _ :=
    ({| typed_msgs := [(1, None); (2, None)]; ret_batches := [];
        CloseSend_err := None |},
     if decide (Targets conn = [])
     then Some (status_error codes_Unavailable "no targets") else None) }.

Definition lower_ascii (c : Ascii.ascii) : Ascii.ascii :=
  let n := Ascii.nat_of_ascii c in
  if bool_decide (65 ≤ n ≤ 90)%nat then Ascii.ascii_of_nat (n + 32) else c.

Fixpoint lower (s : string) : string :=
  match s with
  | EmptyString => EmptyString
  | String c s => String (lower_ascii c) (lower s)
  end.

(** Identifiers spelled with their import path. *)
#[global] Instance plain_GeneratedFile : GeneratedFile := {
  QualifiedGoIdent id := GoImportPath id +:+ "." +:+ GoIdent_GoName id;
  strings_ToLower := lower }.

Definition msg_ident (name : string) : GoIdent :=
  {| GoIdent_GoName := name; GoImportPath := "pb" |}.

Definition method_of (name : string) (client server : bool) : protogen_Method :=
  {| Method_GoName := name; Method_Desc_Name := name;
     IsStreamingClient := client; IsStreamingServer := server;
     Input_GoIdent := msg_ident "Req"; Output_GoIdent := msg_ident "Resp" |}.

(** A service with a unary, a server-streaming, a client-streaming and a
    bidirectional method, in that order. *)
Definition four_methods : protogen_Service :=
  {| Service_GoName := "Test"; Service_Desc_FullName := "T.Test";
     Methods := [method_of "Unary" false false; method_of "Down" false true;
                 method_of "Up" true false; method_of "Bidi" true true] |}.

Definition four_methods_file : protogen_File :=
  {| Generate := true; GeneratedFilenamePrefix := "test"; GoPackageName := "t";
     Services := [four_methods] |}.

(** A reply that carries no error and whose payload does not decode. *)
Definition undecodable (target : string) (index : Z) : Ret :=
  {| Ret_Target := target; Ret_Index := index;
     Ret_Resp := Some {| TypeUrl := "Z"; Value := [] |};
     Ret_Error := None |}.

(** Two targets behind a proxy answer a client-streaming call: A with a
    message, B with a payload that does not decode; both then close and
    the proxied stream is at its end. *)
Definition decode_failure_stream : script :=
  {| typed_msgs := [];
     ret_batches := [([answer "A" 0; undecodable "B" 1], None);
                     ([closing "A" 0; closing "B" 1], None)];
     CloseSend_err := None |}.

Definition decode_failure_call : ClientProxy script :=
  {| cc := two_targets; directDone := false;
     ClientStream := decode_failure_stream |}.

End Scenario2.

(** ** Properties of the proxy session *)

Module ServerProps.
Import Server.

(** *** errgroup *)

Lemma Go_exit_nil g : Go_exit g None = g.
Proof. reflexivity. Qed.

Lemma foldl_Go_exit_fired x order g :
  errOnce g = true → foldl (λ g t, Go_exit g (exit_of x t)) g order = g.
Proof.
  intros Hg. induction order as [|t order IH]; [done|].
  simpl. unfold Go_exit at 2. destruct (exit_of x t); [|done].
  by rewrite Hg.
Qed.

Lemma foldl_Go_exit_all_nil x order g :
  Forall (λ t, exit_of x t = None) order →
  foldl (λ g t, Go_exit g (exit_of x t)) g order = g.
Proof.
  induction 1 as [|t order Ht _ IH]; [done|].
  simpl. by rewrite Ht.
Qed.

Lemma foldl_Go_exit_first x done t rest e g :
  errOnce g = false →
  Forall (λ t', exit_of x t' = None) done →
  exit_of x t = Some e →
  foldl (λ g t, Go_exit g (exit_of x t)) g (done ++ t :: rest)
  = {| errOnce := true; err := Some e; ctx_cancelled := true |}.
Proof.
  intros Hg Hdone Ht.
  rewrite foldl_app, (foldl_Go_exit_all_nil _ _ _ Hdone). simpl.
  rewrite Ht. unfold Go_exit at 2. rewrite Hg.
  by apply foldl_Go_exit_fired.
Qed.

(** The first task of [order] that returned an error splits [order]. *)
Lemma first_error_split x order :
  Forall (λ t, exit_of x t = None) order
  ∨ ∃ done t rest e,
      order = done ++ t :: rest
      ∧ Forall (λ t', exit_of x t' = None) done ∧ exit_of x t = Some e.
Proof.
  induction order as [|t order IH]; [by left|].
  destruct (exit_of x t) as [e|] eqn:Ht.
  - right. by exists [], t, order, e.
  - destruct IH as [IH|(done & t' & rest & e & -> & Hdone & Ht')].
    + left. by constructor.
    + right. exists (t :: done), t', rest, e. split_and!; [done| |done].
      by constructor.
Qed.

(** A group that recorded an error has cancelled its context. *)
Lemma group_after_cancelled x order :
  errOnce (group_after x order) = true →
  ctx_cancelled (group_after x order) = true.
Proof.
  unfold group_after.
  destruct (first_error_split x order)
    as [Hnil|(done & t & rest & e & -> & Hdone & Ht)].
  - by rewrite foldl_Go_exit_all_nil.
  - by rewrite (foldl_Go_exit_first _ _ _ _ e).
Qed.

Lemma Proxy_of_first_error x done t rest e :
  Forall (λ t', exit_of x t' = None) done →
  exit_of x t = Some e →
  Proxy x (done ++ t :: rest) = Some (status_error codes_Internal (Error e)).
Proof.
  intros Hdone Ht. unfold Proxy, group_after.
  by rewrite (foldl_Go_exit_first _ _ _ _ e).
Qed.

(** C1. [Proxy] returns nil exactly when the send pump, the receive pump
    and the dispatcher all returned nil; when one did not, it returns the
    status INTERNAL whose message is the text of the error of the first
    task, in the order the tasks returned, that returned one. *)
Theorem Proxy_status (x : exits) (order : list task) :
  order ≡ₚ [send_task; receive_task; dispatch_task] →
  (Proxy x order = None
   ↔ send_exit x = None ∧ receive_exit x = None ∧ dispatch_exit x = None)
  ∧ (∀ done t rest e,
       order = done ++ t :: rest →
       Forall (λ t', exit_of x t' = None) done →
       exit_of x t = Some e →
       Proxy x order = Some (status_error codes_Internal (Error e))).
Proof.
  intros Hperm. split.
  - assert (Hall : Forall (λ t, exit_of x t = None) order
                   ↔ send_exit x = None ∧ receive_exit x = None
                     ∧ dispatch_exit x = None).
    { rewrite Hperm, !Forall_cons, Forall_nil. simpl. tauto. }
    rewrite <- Hall.
    destruct (first_error_split x order)
      as [Hnil|(done & t & rest & e & -> & Hdone & Ht)].
    + split; [done|]. intros _. unfold Proxy, group_after.
      by rewrite foldl_Go_exit_all_nil.
    + rewrite (Proxy_of_first_error _ _ _ _ e) by done.
      split; [done|]. rewrite Forall_app, Forall_cons.
      intros (_ & Ht' & _). congruence.
  - intros done t rest e -> Hdone Ht. by apply Proxy_of_first_error.
Qed.

Lemma Proxy_status_witness :
  let x := {| send_exit := Some io_EOF;
              receive_exit := Some context_Canceled;
              dispatch_exit := None |} in
  Proxy x [receive_task; send_task; dispatch_task]
  = Some (status_error codes_Internal "context canceled").
Proof.
  intros x.
  assert (Hperm : [receive_task; send_task; dispatch_task]
                  ≡ₚ [send_task; receive_task; dispatch_task])
    by apply Permutation_swap.
  destruct (Proxy_status x _ Hperm) as [_ Hfirst].
  apply (Hfirst [] receive_task [send_task; dispatch_task] context_Canceled).
  - reflexivity.
  - constructor.
  - reflexivity.
Defined.

(** *** send *)

Section SendPump.
Context {S : Type} `{!ServerStream S}.

Lemma send_range_all_ok (msgs : list pb_ProxyReply) (chan_closed : bool)
    (stream : S) :
  Forall (λ c, c.2 = None) (Send_calls stream msgs) →
  send_range msgs chan_closed stream
  = (Send_state stream msgs, Send_calls stream msgs,
     if chan_closed then Returned None else Blocked).
Proof.
  revert stream. induction msgs as [|msg msgs IH]; intros stream; [done|].
  simpl. destruct (stream_Send stream msg) as [s1 [e|]]; simpl.
  - intros Hok. by apply Forall_cons in Hok as [? _].
  - intros Hok. apply Forall_cons in Hok as [_ Hok]. by rewrite (IH _ Hok).
Qed.

Lemma send_range_first_failure (before after : list pb_ProxyReply)
    (msg : pb_ProxyReply) (e : error) (chan_closed : bool) (stream : S) :
  Forall (λ c, c.2 = None) (Send_calls stream before) →
  (stream_Send (Send_state stream before) msg).2 = Some e →
  send_range (before ++ msg :: after) chan_closed stream
  = ((stream_Send (Send_state stream before) msg).1,
     Send_calls stream before ++ [(msg, Some e)], Returned (Some e)).
Proof.
  revert stream. induction before as [|m before IH]; intros stream; simpl.
  - intros _ Hfail.
    destruct (stream_Send stream msg) as [s1 err]. simpl in *. by subst err.
  - destruct (stream_Send stream m) as [s1 [e'|]]; simpl.
    + intros Hok. by apply Forall_cons in Hok as [? _].
    + intros Hok Hfail. apply Forall_cons in Hok as [_ Hok].
      by rewrite (IH _ Hok Hfail).
Qed.

(** Either every [Send] of the frames succeeds or there is a first one
    that fails. *)
Lemma Send_calls_first_failure (msgs : list pb_ProxyReply) (stream : S) :
  Forall (λ c, c.2 = None) (Send_calls stream msgs)
  ∨ ∃ before msg after e,
      msgs = before ++ msg :: after
      ∧ Forall (λ c, c.2 = None) (Send_calls stream before)
      ∧ (stream_Send (Send_state stream before) msg).2 = Some e.
Proof.
  revert stream. induction msgs as [|m msgs IH]; intros stream; [by left|].
  destruct (stream_Send stream m) as [s1 [e|]] eqn:Hsend.
  - right. exists [], m, msgs, e. simpl. by rewrite Hsend.
  - destruct (IH s1) as [Hok|(before & msg & after & e & -> & Hok & Hfail)].
    + left. simpl. rewrite Hsend. by constructor.
    + right. exists (m :: before), msg, after, e. simpl. rewrite Hsend.
      split_and!; [done|by constructor|done].
Qed.

(** C9. The send pump hands the frames of the reply channel to
    [stream.Send] one at a time and in channel order.  When every [Send]
    succeeds it has sent them all, and it returns nil if the channel was
    closed and goes on waiting if not; when a [Send] fails it returns that
    error and has made no call after it.  So it returns nil exactly when
    the channel was closed and every [Send] succeeded, and it returns an
    error exactly when that error is the one of the first [Send] that
    failed. *)
Theorem send_pump (replyChan : chan pb_ProxyReply) (stream : S) :
  let calls := Send_calls stream (items replyChan) in
  (Forall (λ c, c.2 = None) calls →
     send replyChan stream
     = (Send_state stream (items replyChan), calls,
        if closed replyChan then Returned None else Blocked))
  ∧ (∀ before msg after e,
       items replyChan = before ++ msg :: after →
       Forall (λ c, c.2 = None) (Send_calls stream before) →
       (stream_Send (Send_state stream before) msg).2 = Some e →
       send replyChan stream
       = ((stream_Send (Send_state stream before) msg).1,
          Send_calls stream before ++ [(msg, Some e)], Returned (Some e)))
  ∧ ((send replyChan stream).2 = Returned None
     ↔ closed replyChan = true ∧ Forall (λ c, c.2 = None) calls)
  ∧ (∀ e, (send replyChan stream).2 = Returned (Some e)
       ↔ ∃ before msg after,
           items replyChan = before ++ msg :: after
           ∧ Forall (λ c, c.2 = None) (Send_calls stream before)
           ∧ (stream_Send (Send_state stream before) msg).2 = Some e).
Proof.
  intros calls. subst calls. unfold send.
  assert (Hfail : ∀ before msg after e,
            items replyChan = before ++ msg :: after →
            Forall (λ c, c.2 = None) (Send_calls stream before) →
            (stream_Send (Send_state stream before) msg).2 = Some e →
            send_range (items replyChan) (closed replyChan) stream
            = ((stream_Send (Send_state stream before) msg).1,
               Send_calls stream before ++ [(msg, Some e)],
               Returned (Some e))).
  { intros before msg after e -> Hok He. by apply send_range_first_failure. }
  split_and!.
  - apply send_range_all_ok.
  - exact Hfail.
  - destruct (Send_calls_first_failure (items replyChan) stream)
      as [Hok|(before & msg & after & e & Hitems & Hok & He)].
    + rewrite (send_range_all_ok _ _ _ Hok). simpl.
      destruct (closed replyChan); split; try done. by intros [? _].
    + rewrite (Hfail _ _ _ _ Hitems Hok He). simpl. split; [done|].
      intros [_ Hall]. rewrite Hitems in Hall.
      clear Hfail Hitems. revert stream Hok He Hall.
      induction before as [|m before IH]; intros stream Hok He Hall; simpl in *.
      * destruct (stream_Send stream msg) as [s1 err]. simpl in *. subst err.
        by apply Forall_cons in Hall as [? _].
      * destruct (stream_Send stream m) as [s1 err]. simpl in *.
        apply Forall_cons in Hok as [_ Hok].
        apply Forall_cons in Hall as [_ Hall]. by apply (IH s1).
  - intros e.
    destruct (Send_calls_first_failure (items replyChan) stream)
      as [Hok|(before & msg & after & e' & Hitems & Hok & He)].
    + rewrite (send_range_all_ok _ _ _ Hok). simpl. split.
      * by destruct (closed replyChan).
      * intros (before & msg & after & Hitems & _ & He). exfalso.
        rewrite Hitems in Hok. clear Hfail Hitems. revert stream He Hok.
        induction before as [|m before IH]; intros stream He Hok; simpl in *.
        -- destruct (stream_Send stream msg) as [s1 err]. simpl in *.
           subst err. by apply Forall_cons in Hok as [? _].
        -- destruct (stream_Send stream m) as [s1 err]. simpl in *.
           apply Forall_cons in Hok as [_ Hok]. by apply (IH s1).
    + rewrite (Hfail _ _ _ _ Hitems Hok He). simpl. split.
      * intros [= <-]. by exists before, msg, after.
      * intros (before1 & msg1 & after1 & Hitems1 & Hok1 & He1).
        rewrite (Hfail _ _ _ _ Hitems1 Hok1 He1) in Hfail.
        specialize (Hfail _ _ _ _ Hitems Hok He). congruence.
Qed.

End SendPump.

Lemma send_pump_witness :
  let replyChan :=
    mk_chan [ProxyReply_StreamData 1 []; ProxyReply_StreamData 2 [];
             ProxyReply_StreamData 1 []] true in
  let failed := errorString "transport is closing" in
  send replyChan 1%nat
  = (0%nat,
     [(ProxyReply_StreamData 1 [], None);
      (ProxyReply_StreamData 2 [], Some failed)],
     Returned (Some failed)).
Proof.
  intros replyChan failed.
  destruct (send_pump replyChan 1%nat) as (_ & Hfail & _).
  apply (Hfail [ProxyReply_StreamData 1 []] (ProxyReply_StreamData 2 [])
           [ProxyReply_StreamData 1 []] failed).
  - reflexivity.
  - by repeat constructor.
  - reflexivity.
Defined.

(** *** receive *)





(** *** dispatch *)

Section Dispatcher.
Context {T : Type} `{!TargetStreamSet T}.

Lemma dispatch_cons (sel : dispatch_select) selects (streamSet : T) :
  dispatch (sel :: selects) streamSet
  = match dispatch_turn streamSet sel with
    | (streamSet', calls, Return err) => (streamSet', calls, Returned err)
    | (streamSet', calls, Continue) =>
        let '(streamSet'', calls', r) := dispatch selects streamSet' in
        (streamSet'', calls ++ calls', r)
    end.
Proof.
  simpl. by destruct (dispatch_turn streamSet sel) as [[? ?] [|?]].
Qed.

Lemma dispatch_app pre rest (streamSet s1 : T) calls1 :
  dispatch pre streamSet = (s1, calls1, Blocked) →
  dispatch (pre ++ rest) streamSet
  = (let '(s2, calls2, r) := dispatch rest s1 in (s2, calls1 ++ calls2, r)).
Proof.
  revert streamSet s1 calls1.
  induction pre as [|sel pre IH]; intros streamSet s1 calls1.
  - simpl. intros [= <- <-]. by destruct (dispatch rest streamSet) as [[? ?] ?].
  - rewrite <- app_comm_cons, !dispatch_cons.
    destruct (dispatch_turn streamSet sel) as [[s' calls] [|err]]; [|done].
    destruct (dispatch pre s') as [[s'' calls'] r] eqn:Hpre.
    intros [= <- <- ->]. rewrite (IH _ _ _ Hpre).
    destruct (dispatch rest s'') as [[? ?] ?]. by rewrite app_assoc.
Qed.

(** An errgroup that [Proxy] can have reached cancels the context when a
    task returns an error. *)
Lemma Go_exit_cancels x order e :
  ctx_cancelled (Go_exit (group_after x order) (Some e)) = true.
Proof.
  simpl. destruct (errOnce (group_after x order)) eqn:Hfired; [|done].
  by apply group_after_cancelled.
Qed.

(** C2. Handling a request frame makes [dispatch] return a non-nil
    error exactly when the discriminator of the frame is none of
    StartStream, StreamData, ClientCancel and ClientClose, or when
    [Send], [Cancel] or [ClientClose] of the stream set returns a non-nil
    error, which is then the error returned; it never returns nil on a
    frame; and when it returns the error the errgroup has cancelled the
    context of the session. *)
Theorem dispatch_request_error (streamSet : T) (req : pb_ProxyRequest) :
  (∀ e, (dispatch_request streamSet req).2 = Return (Some e)
     ↔ (known_discriminator (Request req) = false
        ∧ e = status_error codes_Internal
                ("unhandled request type " +:+ fmt_T (Request req)))
       ∨ (∃ v, Request req = Some (ProxyRequest_StreamData v)
            ∧ (Send streamSet v).2 = Some e)
       ∨ (∃ v, Request req = Some (ProxyRequest_ClientCancel v)
            ∧ (Cancel streamSet v).2 = Some e)
       ∨ (∃ v, Request req = Some (ProxyRequest_ClientClose v)
            ∧ (ClientClose streamSet v).2 = Some e))
  ∧ (dispatch_request streamSet req).2 ≠ Return None
  ∧ (∀ e selects x order,
       (dispatch_request streamSet req).2 = Return (Some e) →
       let run := dispatch_goroutine (group_after x order)
                    (requestChan_recv req :: selects) streamSet in
       run.2 = Returned (Some e) ∧ ctx_cancelled run.1 = true).
Proof.
  split_and!.
  - intros e. unfold dispatch_request.
    destruct (Request req) as [[v|v|v|v|ty]|] eqn:Hreq; simpl.
    + destruct (Add streamSet v) as [s' r]. simpl.
      split; [done|]. intros [[? _]|[(? & ? & _)|[(? & ? & _)|(? & ? & _)]]]; done.
    + destruct (Send streamSet v) as [s' [e'|]] eqn:Hcall; simpl.
      * split.
        -- intros [= ->]. right; left. exists v. by rewrite Hcall.
        -- intros [[? _]|[(v' & [= <-] & He)|[(? & ? & _)|(? & ? & _)]]];
             try done. rewrite Hcall in He. simpl in He. congruence.
      * split; [done|].
        intros [[? _]|[(v' & [= <-] & He)|[(? & ? & _)|(? & ? & _)]]];
          try done. by rewrite Hcall in He.
    + destruct (Cancel streamSet v) as [s' [e'|]] eqn:Hcall; simpl.
      * split.
        -- intros [= ->]. right; right; left. exists v. by rewrite Hcall.
        -- intros [[? _]|[(? & ? & _)|[(v' & [= <-] & He)|(? & ? & _)]]];
             try done. rewrite Hcall in He. simpl in He. congruence.
      * split; [done|].
        intros [[? _]|[(? & ? & _)|[(v' & [= <-] & He)|(? & ? & _)]]];
          try done. by rewrite Hcall in He.
    + destruct (ClientClose streamSet v) as [s' [e'|]] eqn:Hcall; simpl.
      * split.
        -- intros [= ->]. right; right; right. exists v. by rewrite Hcall.
        -- intros [[? _]|[(? & ? & _)|[(? & ? & _)|(v' & [= <-] & He)]]];
             try done. rewrite Hcall in He. simpl in He. congruence.
      * split; [done|].
        intros [[? _]|[(? & ? & _)|[(? & ? & _)|(v' & [= <-] & He)]]];
          try done. by rewrite Hcall in He.
    + split.
      * intros [= <-]. by left.
      * intros [[_ ->]|[(? & ? & _)|[(? & ? & _)|(? & ? & _)]]]; done.
    + split.
      * intros [= <-]. by left.
      * intros [[_ ->]|[(? & ? & _)|[(? & ? & _)|(? & ? & _)]]]; done.
  - unfold dispatch_request.
    destruct (Request req) as [[v|v|v|v|ty]|]; simpl.
    + by destruct (Add streamSet v).
    + by destruct (Send streamSet v) as [? [?|]].
    + by destruct (Cancel streamSet v) as [? [?|]].
    + by destruct (ClientClose streamSet v) as [? [?|]].
    + done.
    + done.
  - intros e selects x order Hret run. subst run.
    unfold dispatch_goroutine. rewrite dispatch_cons.
    change (dispatch_turn streamSet (requestChan_recv req))
      with (dispatch_request streamSet req).
    destruct (dispatch_request streamSet req) as [[s' calls] fl].
    simpl in Hret. subst fl. split; [done|].
    apply Go_exit_cancels.
Qed.

(** C10. A StartStream frame never makes [dispatch] return: whatever
    [Add] returns is dropped, the loop goes on with the next select, and
    the errgroup is left as it was. *)
Theorem dispatch_StartStream (streamSet : T) (req : pb_ProxyRequest)
    (v : pb_StartStream) (selects : list dispatch_select) (g : Group) :
  Request req = Some (ProxyRequest_StartStream v) →
  dispatch_request streamSet req
  = ((Add streamSet v).1, [call_Add v], Continue)
  ∧ dispatch (requestChan_recv req :: selects) streamSet
    = (let '(s, calls, r) := dispatch selects (Add streamSet v).1 in
       (s, call_Add v :: calls, r))
  ∧ dispatch_goroutine g [requestChan_recv req] streamSet = (g, Blocked).
Proof.
  intros Hreq.
  assert (Hstep : dispatch_request streamSet req
                  = ((Add streamSet v).1, [call_Add v], Continue)).
  { unfold dispatch_request. rewrite Hreq. by destruct (Add streamSet v). }
  split_and!; [done| |].
  - rewrite dispatch_cons.
    change (dispatch_turn streamSet (requestChan_recv req))
      with (dispatch_request streamSet req).
    by rewrite Hstep.
  - unfold dispatch_goroutine. rewrite dispatch_cons.
    change (dispatch_turn streamSet (requestChan_recv req))
      with (dispatch_request streamSet req).
    by rewrite Hstep.
Qed.

(** C8. When the dispatcher sees the request channel closed it calls
    [ClientCloseAll], then [Wait], makes no other call and returns what
    [ctx.Err()] reports, whatever selects could follow; that is nil when
    the context has not been cancelled. *)
Theorem dispatch_requestChan_closed (pre rest : list dispatch_select)
    (streamSet s1 : T) (calls1 : list set_call) (ctx_Err : option error) :
  dispatch pre streamSet = (s1, calls1, Blocked) →
  dispatch (pre ++ requestChan_closed ctx_Err :: rest) streamSet
  = (Wait (ClientCloseAll s1), calls1 ++ [call_ClientCloseAll; call_Wait],
     Returned ctx_Err)
  ∧ dispatch (pre ++ requestChan_closed None :: rest) streamSet
    = (Wait (ClientCloseAll s1), calls1 ++ [call_ClientCloseAll; call_Wait],
       Returned None).
Proof.
  intros Hpre. by rewrite !(dispatch_app _ _ _ _ _ Hpre).
Qed.

End Dispatcher.

Import Scenario.

Lemma dispatch_request_error_witness :
  let req :=
    {| Request := Some (ProxyRequest_StreamData
                          {| StreamData_StreamIds := [7];
                             StreamData_Payload := [] |}) |} in
  let e := status_error codes_InvalidArgument "no such stream" in
  let x := {| send_exit := None; receive_exit := None; dispatch_exit := None |} in
  let run := dispatch_goroutine (group_after x []) [requestChan_recv req]
               toy_empty in
  run.2 = Returned (Some e) ∧ ctx_cancelled run.1 = true.
Proof.
  intros req e x run.
  destruct (dispatch_request_error toy_empty req) as (_ & _ & Hcancel).
  apply (Hcancel e [] x []). reflexivity.
Defined.

Lemma dispatch_StartStream_witness :
  let v := {| StartStream_Nonce := 3; StartStream_Target := "B";
              StartStream_MethodName := "/S/Unknown" |} in
  let req := {| Request := Some (ProxyRequest_StartStream v) |} in
  (Add toy_empty v).2 = Some (status_error codes_Unimplemented "unknown method")
  ∧ dispatch_goroutine WithContext [requestChan_recv req] toy_empty
    = (WithContext, Blocked).
Proof.
  intros v req. split; [reflexivity|].
  destruct (dispatch_StartStream toy_empty req v [] WithContext)
    as (_ & _ & Hrun); [reflexivity|exact Hrun].
Defined.

Lemma dispatch_requestChan_closed_witness :
  let v := {| StartStream_Nonce := 1; StartStream_Target := "A";
              StartStream_MethodName := "/S/M" |} in
  let pre := [requestChan_recv {| Request := Some (ProxyRequest_StartStream v) |}] in
  dispatch (pre ++ [requestChan_closed None; doneChan_recv 1]) toy_empty
  = ({| open_ids := []; next_id := 2 |},
     [call_Add v; call_ClientCloseAll; call_Wait], Returned None).
Proof.
  intros v pre.
  destruct (dispatch_requestChan_closed pre [doneChan_recv 1] toy_empty
              {| open_ids := [1]; next_id := 2 |} [call_Add v] None)
    as [_ Hnil]; [reflexivity|exact Hnil].
Defined.

End ServerProps.

(** ** Properties of the emitted client code *)

Module GeneratedProps.
Import Generated.

Section Emitted.
Context {In Out S : Type}.
Context `{!Method In Out, !ClientConn In Out, !grpc_ClientStream In Out S}.

Lemma append_typed_fmap (ret : list (ManyResponse Out)) (m : list Ret) :
  append_typed ret m = ret ++ (typed <$> m).
Proof.
  unfold append_typed. revert ret.
  induction m as [|r m IH]; intros ret; csimpl.
  - by rewrite app_nil_r.
  - by rewrite IH, <- app_assoc.
Qed.

Lemma convert_goroutine_fmap (manyRet : list Ret) (c : bool) :
  convert_goroutine manyRet c = mk_chan (typed <$> manyRet) c.
Proof.
  induction manyRet as [|r manyRet IH]; csimpl; [done|]. by rewrite IH.
Qed.

(** On [Recv] and on the unary [OneMany]: a raw reply that carries no
    error and whose payload does not decode becomes a [ManyResponse] whose
    error is built from the decoding error and from the error the reply
    carried (nil, printed [<nil>]); the replies around it are converted
    all the same, both by [Recv] and by the unary goroutine. *)
Theorem decode_failure_in_ManyResponse (r : Ret) (resp : Out) (e : error) :
  Ret_Error r = None →
  UnmarshalTo (Ret_Resp r) zero_Out = (resp, Some e) →
  typed r
  = {| Target := Ret_Target r; Index := Ret_Index r; Resp := resp;
       Error := Some (errorString
                        ("can't decode any response - " +:+ Go.Error e +:+
                         ". Original Error - <nil>")) |}
  ∧ (∀ (x : ClientProxy S) s before after,
       Direct (cc x) = false →
       RecvMsg_rets (ClientStream x) [] = (s, before ++ r :: after, None) →
       Recv x
       = Done ({| cc := cc x; directDone := directDone x; ClientStream := s |},
               ((typed <$> before) ++ typed r :: (typed <$> after), None)))
  ∧ (∀ (conn : Conn) (in_ : In) before after c,
       length (Targets conn) ≠ 1%nat →
       InvokeOneMany conn full_method in_
       = (mk_chan (before ++ r :: after) c, None) →
       OneMany conn in_
       = ([call_InvokeOneMany full_method],
          (Some (mk_chan ((typed <$> before) ++ typed r :: (typed <$> after)) c),
           None))).
Proof.
  intros Herr Hdecode. split_and!.
  - unfold typed. rewrite Herr. simpl. by rewrite Hdecode.
  - intros x s before after Hdirect Hrecv. unfold Recv.
    rewrite Hdirect, Hrecv, append_typed_fmap. simpl.
    by rewrite fmap_app.
  - intros conn in_ before after c Hlen Hcall. unfold OneMany.
    destruct (Targets conn) as [|t [|t' ts]] eqn:Htargets;
      [|done|]; rewrite Hcall; simpl;
      by rewrite convert_goroutine_fmap, fmap_app.
Qed.

(** C5. On a direct connection with the single target [target], a
    [Recv] that is not done makes one [RecvMsg] call and returns exactly
    one [ManyResponse], for [target] and index 0, that carries the
    message and the error of that call; and once a [Recv] has returned a
    [ManyResponse] with an error, each later [Recv] returns [io.EOF] and
    no response. *)
Theorem Recv_direct_mode (x : ClientProxy S) (target : string) :
  Direct (cc x) = true →
  Targets (cc x) = [target] →
  (directDone x = false →
     ∀ s m err, RecvMsg_typed (ClientStream x) zero_Out = (s, m, err) →
       Recv x
       = Done ({| cc := cc x;
                  directDone := if err is Some _ then true else false;
                  ClientStream := s |},
               ([{| Target := target; Index := 0; Resp := m; Error := err |}],
                None)))
  ∧ (∀ x1 mr, Recv x = Done (x1, ([mr], None)) →
       Error mr ≠ None →
       ∀ n, Recv_calls n x1 = replicate n (Done ([], Some io_EOF))).
Proof.
  intros Hdirect Htargets. split.
  - intros Hdone s m err Hrecv. unfold Recv, recv_direct.
    rewrite Hdirect, Hdone, Hrecv, Htargets. simpl.
    by destruct err.
  - intros x1 mr Hrecv Herr.
    assert (Hx1 : Direct (cc x1) = true ∧ directDone x1 = true).
    { unfold Recv, recv_direct in Hrecv. rewrite Hdirect, Htargets in Hrecv.
      destruct (directDone x); [done|].
      destruct (RecvMsg_typed (ClientStream x) zero_Out) as [[s m] err].
      simpl in Hrecv. injection Hrecv as <- <-. simpl in *.
      by destruct err. }
    destruct Hx1 as [Hdirect1 Hdone1].
    induction n as [|n IH]; [done|].
    simpl. unfold Recv at 1, recv_direct. rewrite Hdirect1, Hdone1.
    by rewrite IH.
Qed.

(** C6. With exactly one configured target the unary [OneMany] makes a
    single [Invoke] call and no [InvokeOneMany] call, and the channel it
    returns delivers one [ManyResponse], for that target and index 0,
    that carries the error of [Invoke], and is then closed. *)
Theorem OneMany_single_target (conn : Conn) (in_ : In) (target : string) :
  Targets conn = [target] →
  let call := Invoke conn full_method in_ zero_Out in
  OneMany conn in_
  = ([call_Invoke full_method],
     (Some (mk_chan [{| Target := target; Index := 0; Resp := call.1;
                        Error := call.2 |}] true),
      None)).
Proof.
  intros Htargets call. subst call. unfold OneMany. rewrite Htargets.
  simpl. by destruct (Invoke conn full_method in_ zero_Out) as [resp [e|]].
Qed.

(** *** CloseAndRecv *)

Lemma all_eof_true (eof : gmap Z bool) :
  all_eof eof = true → ∀ k v, eof !! k = Some v → v = true.
Proof.
  unfold all_eof.
  apply (map_fold_weak_ind
           (λ (done : bool) (m : gmap Z bool),
              done = true → ∀ k v, m !! k = Some v → v = true)).
  - intros _ k v. by rewrite lookup_empty.
  - intros i x m done _ IH Hdone k v.
    destruct x; simpl in Hdone; [|done].
    rewrite lookup_insert. case_decide; [congruence|by apply IH].
Qed.

Lemma eof_entries_kept (l : list nat) (eof : gmap Z bool) (k : Z) :
  eof !! k = Some false →
  foldl (λ eof i, <[Z.of_nat i := false]> eof) eof l !! k = Some false.
Proof.
  revert eof. induction l as [|i l IH]; intros eof Hk; [done|].
  simpl. apply IH. rewrite lookup_insert. by case_decide.
Qed.

Lemma eof_init_lookup (targets : list string) (i : nat) :
  (i < length targets)%nat → eof_init targets !! Z.of_nat i = Some false.
Proof.
  intros Hi. unfold eof_init.
  assert (Hin : i ∈ seq 0 (length targets)) by (apply elem_of_seq; lia).
  generalize (∅ : gmap Z bool). revert Hin.
  generalize (seq 0 (length targets)) as l.
  induction l as [|j l IH]; intros Hin eof; [by apply elem_of_nil in Hin|].
  simpl. apply elem_of_cons in Hin as [->|Hin].
  - apply eof_entries_kept, lookup_insert_eq.
  - by apply IH.
Qed.

(** With a target configured, no entry of [eof] ever becomes true. *)
Lemma all_eof_init (targets : list string) :
  targets ≠ [] → all_eof (eof_init targets) = false.
Proof.
  intros Hne. destruct (all_eof (eof_init targets)) eqn:Hall; [|done].
  assert (Hlt : (0 < length targets)%nat) by (destruct targets; simpl; [done|lia]).
  pose proof (all_eof_true _ Hall _ _ (eof_init_lookup targets 0 Hlt)).
  done.
Qed.

Lemma CloseAndRecv_loop_only_fails (eof : gmap Z bool) (fuel : nat)
    (x x' : ClientProxy S) ret out :
  all_eof eof = false →
  CloseAndRecv_loop fuel eof x ret = Done (x', out) →
  ∃ e, out = ([], Some e).
Proof.
  intros Heof. revert x ret.
  induction fuel as [|fuel IH]; intros x ret; simpl; [done|].
  rewrite Heof.
  destruct (RecvMsg_rets (ClientStream x) []) as [[s m] [e|]].
  - intros [= _ <-]. by exists e.
  - apply IH.
Qed.

(** On a proxied connection with a target configured, [CloseAndRecv]
    returns only through an error of [CloseSend] or [RecvMsg]: it never
    returns the responses it collected. *)
Lemma CloseAndRecv_only_fails (fuel : nat) (x x' : ClientProxy S) out :
  Direct (cc x) = false →
  Targets (cc x) ≠ [] →
  CloseAndRecv fuel x = Done (x', out) →
  ∃ e, out = ([], Some e).
Proof.
  intros Hdirect Hne. unfold CloseAndRecv.
  destruct (CloseSend (ClientStream x)) as [s [e|]]; simpl.
  - intros [= _ <-]. by exists e.
  - rewrite Hdirect. by apply CloseAndRecv_loop_only_fails, all_eof_init.
Qed.

End Emitted.

Import Scenario.

(** C3. Two targets behind a proxy each answer and then close (the
    input [two_targets_call]): [CloseAndRecv] half-closes the stream, reads
    the three batches, and at the end of the stream returns [io.EOF] and
    none of the four responses it has collected. *)
Theorem CloseAndRecv_two_targets :
  CloseAndRecv 4 two_targets_call
  = Done ({| cc := two_targets; directDone := false;
             ClientStream := {| typed_msgs := []; ret_batches := [];
                                CloseSend_err := None |} |},
          ([], Some io_EOF))
  ∧ append_typed [] (concat (ret_batches two_targets_stream).*1)
    = [ {| Target := "A"; Index := 0; Resp := 42; Error := None |};
        {| Target := "B"; Index := 1; Resp := 42; Error := None |};
        {| Target := "A"; Index := 0; Resp := 0; Error := Some io_EOF |};
        {| Target := "B"; Index := 1; Resp := 0; Error := Some io_EOF |} ].
Proof. split; vm_compute; reflexivity. Qed.

(** C4. On the client-streaming surface the decoding failure is lost:
    at the input [Scenario2.decode_failure_call] the reply of B carries no error and
    does not decode, the conversion builds the [ManyResponse] whose error
    names the decoding failure and the original error, and
    [CloseAndRecv] then returns [io.EOF] and no response at all, neither
    that one nor the ones collected around it. *)
Theorem CloseAndRecv_decode_failure :
  append_typed [] (concat (ret_batches Scenario2.decode_failure_stream).*1)
  = [ {| Target := "A"; Index := 0; Resp := 42; Error := None |};
      {| Target := "B"; Index := 1; Resp := 0;
         Error := Some (errorString
                          "can't decode any response - mismatched message type. Original Error - <nil>") |};
      {| Target := "A"; Index := 0; Resp := 0; Error := Some io_EOF |};
      {| Target := "B"; Index := 1; Resp := 0; Error := Some io_EOF |} ]
  ∧ CloseAndRecv 3 Scenario2.decode_failure_call
    = Done ({| cc := two_targets; directDone := false;
               ClientStream := {| typed_msgs := []; ret_batches := [];
                                  CloseSend_err := None |} |},
            ([], Some io_EOF)).
Proof. split; vm_compute; reflexivity. Qed.

Lemma decode_failure_in_ManyResponse_witness :
  let r := {| Ret_Target := "B"; Ret_Index := 1;
              Ret_Resp := Some {| TypeUrl := "Z"; Value := [] |};
              Ret_Error := None |} in
  typed r
  = {| Target := "B"; Index := 1; Resp := 0;
       Error := Some (errorString
                        "can't decode any response - mismatched message type. Original Error - <nil>") |}.
Proof.
  intros r.
  destruct (decode_failure_in_ManyResponse (S := script) r 0
              (errorString "mismatched message type"))
    as [Htyped _]; [reflexivity|reflexivity|exact Htyped].
Defined.

Lemma Recv_direct_mode_witness :
  let x := {| cc := {| Targets := ["T"]; direct := true |};
              directDone := false;
              ClientStream :=
                {| typed_msgs := [(7, Some (status_error codes_Internal "boom"))];
                   ret_batches := []; CloseSend_err := None |} |} in
  Recv_calls 3 x
  = [Done ([{| Target := "T"; Index := 0; Resp := 7;
               Error := Some (status_error codes_Internal "boom") |}], None);
     Done ([], Some io_EOF); Done ([], Some io_EOF)].
Proof.
  intros x.
  destruct (Recv_direct_mode x "T") as [Hfirst Hlater];
    [reflexivity|reflexivity|].
  specialize (Hfirst eq_refl _ _ _ eq_refl).
  cbn [Recv_calls]. rewrite Hfirst.
  apply (f_equal2 cons); [reflexivity|].
  exact (Hlater _ _ Hfirst ltac:(discriminate) 2%nat).
Defined.

Lemma OneMany_single_target_witness :
  OneMany {| Targets := ["T"]; direct := false |} 41
  = ([call_Invoke "/S/M"],
     (Some (mk_chan [{| Target := "T"; Index := 0; Resp := 42; Error := None |}]
                    true), None)).
Proof.
  exact (OneMany_single_target {| Targets := ["T"]; direct := false |} 41 "T"
           eq_refl).
Defined.

End GeneratedProps.

(** ** Further properties of the proxy session *)

Module ServerExtra.
Import Server Observations ServerProps.

(** Every run of [receive] read off its result: the frames written to the
    request channel are the first frames received, each forwarded by the
    send branch of its select; nil comes only from [io.EOF], an error only
    from [stream.Recv] or from the [ctx.Done()] branch taken for the next
    frame, which is then dropped; and the pump is still running only when
    it waits for the stream or for the select. *)
Theorem receive_run_cases (recvs : list Recv_result)
    (selects : list receive_select) (sent : list pb_ProxyRequest)
    (r : task_result) :
  receive recvs selects = (sent, r) →
  ∃ rest sels,
    recvs = (Recv_ok <$> sent) ++ rest
    ∧ selects = replicate (length sent) requestChan_send ++ sels
    ∧ match r with
      | Returned None => ∃ rest', rest = Recv_err io_EOF :: rest'
      | Returned (Some e) =>
          (e ≠ io_EOF ∧ ∃ rest', rest = Recv_err e :: rest')
          ∨ (∃ req rest' sels',
               rest = Recv_ok req :: rest' ∧ sels = receive_ctx_Done e :: sels')
      | Blocked =>
          rest = [] ∨ (∃ req rest', rest = Recv_ok req :: rest' ∧ sels = [])
      end.
Proof.
  revert selects sent r.
  induction recvs as [|[req|e] recvs IH]; intros selects sent r; simpl.
  - intros [= <- <-]. exists [], selects. split_and!; [done|done|by left].
  - destruct selects as [|[|e] selects].
    + intros [= <- <-]. exists (Recv_ok req :: recvs), [].
      split_and!; [done|done|]. right. by exists req, recvs.
    + destruct (receive recvs selects) as [sent' r'] eqn:Hrec.
      intros [= <- <-].
      destruct (IH _ _ _ Hrec) as (rest & sels & -> & -> & Hr).
      exists rest, sels. by split_and!.
    + intros [= <- <-]. exists (Recv_ok req :: recvs), (receive_ctx_Done e :: selects).
      split_and!; [done|done|]. right. by exists req, recvs, selects.
  - case_decide as He.
    + intros [= <- <-]. exists (Recv_err e :: recvs), selects.
      split_and!; [done|done|]. subst e. by exists recvs.
    + intros [= <- <-]. exists (Recv_err e :: recvs), selects.
      split_and!; [done|done|]. left. split; [done|by exists recvs].
Qed.

Lemma receive_run_cases_witness :
  let req := {| Request := None |} in
  ∃ rest sels,
    [Recv_ok req; Recv_ok req; Recv_err io_EOF]
    = (Recv_ok <$> [req]) ++ rest
    ∧ [requestChan_send; receive_ctx_Done context_Canceled]
      = replicate 1 requestChan_send ++ sels
    ∧ ((context_Canceled ≠ io_EOF ∧ ∃ rest', rest = Recv_err context_Canceled :: rest')
       ∨ (∃ req' rest' sels',
            rest = Recv_ok req' :: rest'
            ∧ sels = receive_ctx_Done context_Canceled :: sels')).
Proof.
  intros req.
  exact (receive_run_cases [Recv_ok req; Recv_ok req; Recv_err io_EOF]
           [requestChan_send; receive_ctx_Done context_Canceled]
           [req] (Returned (Some context_Canceled)) eq_refl).
Defined.

(** Whatever [Proxy] returns besides nil is the status INTERNAL built from
    the text of an error that one of the finished tasks returned: the
    error itself, its type and its status code are never passed on. *)
Theorem Proxy_reports_task_error (x : exits) (order : list task) (e : error) :
  Proxy x order = Some e →
  ∃ t e0, t ∈ order ∧ exit_of x t = Some e0
          ∧ e = status_error codes_Internal (Go.Error e0).
Proof.
  destruct (first_error_split x order)
    as [Hnil|(done & t & rest & e0 & -> & Hdone & Ht)].
  - unfold Proxy, group_after. by rewrite foldl_Go_exit_all_nil.
  - rewrite (Proxy_of_first_error _ _ _ _ e0) by done.
    intros [= <-]. exists t, e0. split_and!; [|done|done].
    apply elem_of_app. right. by left.
Qed.

Lemma Proxy_reports_task_error_witness :
  let x := {| send_exit := None; receive_exit := None;
              dispatch_exit :=
                Some (status_error codes_InvalidArgument "no such stream") |} in
  ∃ t e0, t ∈ [send_task; dispatch_task; receive_task]
          ∧ exit_of x t = Some e0
          ∧ status_error codes_Internal
              "rpc error: code = InvalidArgument desc = no such stream"
            = status_error codes_Internal (Go.Error e0).
Proof.
  intros x.
  exact (Proxy_reports_task_error x [send_task; dispatch_task; receive_task]
           _ eq_refl).
Defined.

(** The errgroup of the session has cancelled the context of the session
    exactly when one of the tasks that have returned so far returned an
    error. *)
Theorem scope_cancelled_iff_task_failed (x : exits) (order : list task) :
  ctx_cancelled (group_after x order) = true
  ↔ ∃ t, t ∈ order ∧ exit_of x t ≠ None.
Proof.
  unfold group_after.
  destruct (first_error_split x order)
    as [Hnil|(done & t & rest & e0 & -> & Hdone & Ht)].
  - rewrite foldl_Go_exit_all_nil by done. simpl. split; [done|].
    intros (t & Hin & Ht). rewrite Forall_forall in Hnil. by apply Hnil in Hin.
  - rewrite (foldl_Go_exit_first _ _ _ _ e0) by done. simpl.
    split; [|done]. intros _. exists t. split; [|congruence].
    apply elem_of_app. right. by left.
Qed.

Section Dispatcher.
Context {T : Type} `{!TargetStreamSet T}.

(** Once [dispatch] has returned it has returned: selects that could have
    followed change neither the result nor the stream set nor the calls
    made. *)
Theorem dispatch_stops_at_return (pre rest : list dispatch_select)
    (streamSet s1 : T) (calls : list set_call) (err : option error) :
  dispatch pre streamSet = (s1, calls, Returned err) →
  dispatch (pre ++ rest) streamSet = (s1, calls, Returned err).
Proof.
  revert streamSet s1 calls.
  induction pre as [|sel pre IH]; intros streamSet s1 calls; [done|].
  rewrite <- app_comm_cons, !dispatch_cons.
  destruct (dispatch_turn streamSet sel) as [[s' calls0] [|err0]]; [|done].
  destruct (dispatch pre s') as [[s'' calls'] r] eqn:Hpre.
  intros [= <- <- ->]. by rewrite (IH _ _ _ Hpre).
Qed.

Lemma dispatch_turn_calls (streamSet s' : T) (sel : dispatch_select)
    calls fl :
  dispatch_turn streamSet sel = (s', calls, fl) →
  ((calls = [call_ClientCloseAll; call_Wait] ∧ (∃ ctx_Err, fl = Return ctx_Err))
   ∨ Forall (λ c, c ≠ call_Wait ∧ c ≠ call_ClientCloseAll) calls)
  ∧ removed_ids calls = done_ids [sel].
Proof.
  destruct sel as [e|id|req|ctx_Err]; simpl.
  - intros [= <- <- <-]. split; [by right|done].
  - intros [= <- <- <-]. split; [right|done]. by repeat constructor.
  - unfold dispatch_request.
    destruct (Request req) as [[v|v|v|v|ty]|].
    + destruct (Add streamSet v). intros [= <- <- <-].
      split; [right|done]. by repeat constructor.
    + destruct (Send streamSet v). intros [= <- <- <-].
      split; [right|done]. by repeat constructor.
    + destruct (Cancel streamSet v). intros [= <- <- <-].
      split; [right|done]. by repeat constructor.
    + destruct (ClientClose streamSet v). intros [= <- <- <-].
      split; [right|done]. by repeat constructor.
    + intros [= <- <- <-]. split; [by right|done].
    + intros [= <- <- <-]. split; [by right|done].
  - intros [= <- <- <-]. split; [left|done]. split; [done|by exists ctx_Err].
Qed.

Lemma dispatch_turn_close (streamSet s' : T) (sel : dispatch_select)
    calls fl :
  dispatch_turn streamSet sel = (s', calls, fl) →
  (∃ ctx_Err, sel = requestChan_closed ctx_Err)
  ∨ Forall (λ c, c ≠ call_Wait ∧ c ≠ call_ClientCloseAll) calls.
Proof.
  destruct sel as [e|id|req|ctx_Err]; simpl; [| | |left; by eexists].
  - intros [= <- <- <-]. by right.
  - intros [= <- <- <-]. right. by repeat constructor.
  - unfold dispatch_request.
    destruct (Request req) as [[v|v|v|v|ty]|].
    + destruct (Add streamSet v). intros [= <- <- <-].
      right. by repeat constructor.
    + destruct (Send streamSet v). intros [= <- <- <-].
      right. by repeat constructor.
    + destruct (Cancel streamSet v). intros [= <- <- <-].
      right. by repeat constructor.
    + destruct (ClientClose streamSet v). intros [= <- <- <-].
      right. by repeat constructor.
    + intros [= <- <- <-]. by right.
    + intros [= <- <- <-]. by right.
Qed.

Lemma no_close_call (calls : list set_call) :
  Forall (λ c, c ≠ call_Wait ∧ c ≠ call_ClientCloseAll) calls →
  (call_Wait ∉ calls) ∧ (call_ClientCloseAll ∉ calls).
Proof.
  rewrite Forall_forall. intros Hfree.
  split; intros Hin; apply Hfree in Hin; by destruct Hin.
Qed.

(** A dispatcher that is still running has called neither
    [ClientCloseAll] nor [Wait]. *)
Lemma dispatch_blocked_calls (pre : list dispatch_select)
    (streamSet s1 : T) (calls1 : list set_call) :
  dispatch pre streamSet = (s1, calls1, Blocked) →
  Forall (λ c, c ≠ call_Wait ∧ c ≠ call_ClientCloseAll) calls1.
Proof.
  revert streamSet s1 calls1.
  induction pre as [|sel pre IH]; intros streamSet s1 calls1.
  - simpl. by intros [= <- <-].
  - rewrite dispatch_cons.
    destruct (dispatch_turn streamSet sel) as [[s2 calls2] fl] eqn:Hturn.
    destruct fl as [|err]; [|done].
    destruct (dispatch pre s2) as [[s3 calls3] r3] eqn:Hrec.
    intros [= <- <- ->]. apply Forall_app. split; [|by eapply IH].
    by apply dispatch_turn_calls in Hturn as [[(_ & ? & ?)|?] _].
Qed.

Lemma dispatch_close_reached (selects : list dispatch_select)
    (streamSet s' : T) (calls : list set_call) (r : task_result) :
  dispatch selects streamSet = (s', calls, r) →
  call_Wait ∈ calls ∨ call_ClientCloseAll ∈ calls →
  ∃ pre ctx_Err rest,
    selects = pre ++ requestChan_closed ctx_Err :: rest
    ∧ (dispatch pre streamSet).2 = Blocked.
Proof.
  revert streamSet s' calls r.
  induction selects as [|sel selects IH]; intros streamSet s' calls r.
  - simpl. intros [= <- <- <-] [Hin|Hin]; by apply elem_of_nil in Hin.
  - rewrite dispatch_cons.
    destruct (dispatch_turn streamSet sel) as [[s1 calls1] fl] eqn:Hturn.
    destruct (dispatch_turn_close _ _ _ _ _ Hturn) as [[ctx_Err ->]|Hfree].
    { intros _ _. by exists [], ctx_Err, selects. }
    apply no_close_call in Hfree as [HW HC].
    destruct fl as [|err].
    + destruct (dispatch selects s1) as [[s2 calls2] r2] eqn:Hrec.
      intros [= <- <- <-] Hin.
      assert (Hin2 : call_Wait ∈ calls2 ∨ call_ClientCloseAll ∈ calls2).
      { destruct Hin as [Hin|Hin]; apply elem_of_app in Hin as [Hin|Hin];
          try done; [by left|by right]. }
      destruct (IH _ _ _ _ Hrec Hin2) as (pre & ctx_Err & rest & -> & Hpre).
      exists (sel :: pre), ctx_Err, rest. split; [done|].
      rewrite dispatch_cons, Hturn.
      by destruct (dispatch pre s1) as [[? ?] ?].
    + intros [= <- <- <-] [Hin|Hin]; done.
Qed.

(** [dispatch] calls [ClientCloseAll] and [Wait] in exactly one case: the
    run reached, still running, a select that found the request channel
    closed.  They are then its last two calls, made one right after the
    other on the stream set as the earlier turns left it, and it returns
    what [ctx.Err()] reports.  A run that ends in another way, on a
    protocol error or on [ctx.Done()], and a run that has not ended, call
    neither. *)
Theorem dispatch_Wait_last (selects : list dispatch_select)
    (streamSet s' : T) (calls : list set_call) (r : task_result) :
  dispatch selects streamSet = (s', calls, r) →
  (call_Wait ∈ calls ∨ call_ClientCloseAll ∈ calls
   ↔ ∃ pre ctx_Err rest,
       selects = pre ++ requestChan_closed ctx_Err :: rest
       ∧ (dispatch pre streamSet).2 = Blocked)
  ∧ (∀ pre ctx_Err rest s1 calls1,
       selects = pre ++ requestChan_closed ctx_Err :: rest →
       dispatch pre streamSet = (s1, calls1, Blocked) →
       s' = Wait (ClientCloseAll s1)
       ∧ calls = calls1 ++ [call_ClientCloseAll; call_Wait]
       ∧ r = Returned ctx_Err
       ∧ (call_Wait ∉ calls1) ∧ (call_ClientCloseAll ∉ calls1)).
Proof.
  intros Hrun.
  assert (Hlast : ∀ pre ctx_Err rest s1 calls1,
            selects = pre ++ requestChan_closed ctx_Err :: rest →
            dispatch pre streamSet = (s1, calls1, Blocked) →
            s' = Wait (ClientCloseAll s1)
            ∧ calls = calls1 ++ [call_ClientCloseAll; call_Wait]
            ∧ r = Returned ctx_Err
            ∧ (call_Wait ∉ calls1) ∧ (call_ClientCloseAll ∉ calls1)).
  { intros pre ctx_Err rest s1 calls1 -> Hpre.
    rewrite (dispatch_app _ _ _ _ _ Hpre) in Hrun. simpl in Hrun.
    injection Hrun as <- <- <-.
    split_and!; [done|done|done|..];
      by apply (no_close_call _ (dispatch_blocked_calls _ _ _ _ Hpre)). }
  split; [|exact Hlast]. split.
  - by apply (dispatch_close_reached _ _ _ _ _ Hrun).
  - intros (pre & ctx_Err & rest & Hsel & Hpre).
    destruct (dispatch pre streamSet) as [[s1 calls1] r1] eqn:Hp.
    simpl in Hpre. subst r1.
    destruct (Hlast _ _ _ _ _ Hsel Hp) as (_ & -> & _).
    left. rewrite elem_of_app, !elem_of_cons. tauto.
Qed.

(** When the select takes the [ctx.Done()] branch, [dispatch] returns the
    error of the context at once: the stream set is left as the earlier
    turns left it and no further call is made on it. *)
Theorem dispatch_ctx_Done_returns (pre rest : list dispatch_select)
    (streamSet s1 : T) (calls1 : list set_call) (e : error) :
  dispatch pre streamSet = (s1, calls1, Blocked) →
  dispatch (pre ++ dispatch_ctx_Done e :: rest) streamSet
  = (s1, calls1, Returned (Some e)).
Proof.
  intros Hpre. rewrite (dispatch_app _ _ _ _ _ Hpre). simpl.
  by rewrite app_nil_r.
Qed.

(** [dispatch] calls [Remove] for the ids it received from [doneChan], in
    the order it received them, and for no other id. *)
Theorem dispatch_removes_done (selects : list dispatch_select)
    (streamSet s' : T) (calls : list set_call) (r : task_result) :
  dispatch selects streamSet = (s', calls, r) →
  removed_ids calls `prefix_of` done_ids selects
  ∧ (r = Blocked → removed_ids calls = done_ids selects).
Proof.
  revert streamSet s' calls r.
  induction selects as [|sel selects IH]; intros streamSet s' calls r.
  - simpl. by intros [= <- <- <-].
  - rewrite dispatch_cons.
    destruct (dispatch_turn streamSet sel) as [[s1 calls1] fl] eqn:Hturn.
    assert (Hids : removed_ids calls1 = done_ids [sel]).
    { by apply dispatch_turn_calls in Hturn as [_ Hids]. }
    change (sel :: selects) with ([sel] ++ selects).
    unfold done_ids in *. rewrite omap_app, <- Hids.
    destruct fl as [|err].
    + destruct (dispatch selects s1) as [[s2 calls2] r2] eqn:Hrec.
      intros [= <- <- <-]. destruct (IH _ _ _ _ Hrec) as [Hpre Heq].
      unfold removed_ids in *. rewrite omap_app. split.
      * by apply prefix_app.
      * intros Hr. by rewrite Heq.
    + intros [= <- <- <-]. split; [|done]. by apply prefix_app_r.
Qed.

(** A frame whose discriminator the dispatcher has no case for makes
    [dispatch] return the INTERNAL error [unhandled request type ...]
    without a call on the stream set, which stays as the earlier turns
    left it; and the session then ends with a status that wraps a status:
    when the dispatcher is the first task to fail, [Proxy] returns
    INTERNAL whose message is the whole text of that error. *)
Theorem unknown_frame_session_status (pre rest : list dispatch_select)
    (streamSet s1 : T) (calls1 : list set_call) (req : pb_ProxyRequest) :
  dispatch pre streamSet = (s1, calls1, Blocked) →
  known_discriminator (Request req) = false →
  let unhandled :=
    status_error codes_Internal
      ("unhandled request type " +:+ fmt_T (Request req)) in
  dispatch (pre ++ requestChan_recv req :: rest) streamSet
  = (s1, calls1, Returned (Some unhandled))
  ∧ (∀ (x : exits) (done later : list task),
       dispatch_exit x = Some unhandled →
       Forall (λ t, exit_of x t = None) done →
       Proxy x (done ++ dispatch_task :: later)
       = Some (status_error codes_Internal
                 ("rpc error: code = Internal desc = unhandled request type "
                  +:+ fmt_T (Request req)))).
Proof.
  intros Hpre Hunknown unhandled. split.
  - rewrite (dispatch_app _ _ _ _ _ Hpre), dispatch_cons.
    change (dispatch_turn s1 (requestChan_recv req))
      with (dispatch_request s1 req).
    unfold dispatch_request.
    destruct (Request req) as [[v|v|v|v|ty]|]; try done;
      by rewrite app_nil_r.
  - intros x done later Hexit Hdone.
    by rewrite (Proxy_of_first_error x done dispatch_task later _ Hdone Hexit).
Qed.

End Dispatcher.

Import Scenario.

Lemma dispatch_stops_at_return_witness :
  let bad := {| Request := Some (ProxyRequest_other "*proxy.ProxyRequest_Ping") |} in
  dispatch ([requestChan_recv bad] ++ [requestChan_closed None]) toy_empty
  = (toy_empty, [],
     Returned (Some (status_error codes_Internal
                       "unhandled request type *proxy.ProxyRequest_Ping"))).
Proof.
  intros bad.
  exact (dispatch_stops_at_return [requestChan_recv bad]
           [requestChan_closed None] toy_empty _ _ _ eq_refl).
Defined.

Lemma dispatch_Wait_last_witness :
  {| open_ids := []; next_id := 1 |} = Wait (ClientCloseAll toy_empty)
  ∧ [call_Remove 4; call_ClientCloseAll; call_Wait]
    = [call_Remove 4] ++ [call_ClientCloseAll; call_Wait]
  ∧ Returned (Some context_Canceled) = Returned (Some context_Canceled)
  ∧ (call_Wait ∉ [call_Remove 4]) ∧ (call_ClientCloseAll ∉ [call_Remove 4]).
Proof.
  assert (Hrun : dispatch ([doneChan_recv 4]
                           ++ requestChan_closed (Some context_Canceled)
                              :: [dispatch_ctx_Done context_Canceled])
                   toy_empty
                 = ({| open_ids := []; next_id := 1 |},
                    [call_Remove 4; call_ClientCloseAll; call_Wait],
                    Returned (Some context_Canceled))) by reflexivity.
  destruct (dispatch_Wait_last _ _ _ _ _ Hrun) as [_ Hlast].
  apply (Hlast [doneChan_recv 4] (Some context_Canceled)
           [dispatch_ctx_Done context_Canceled] toy_empty [call_Remove 4]);
    reflexivity.
Defined.

Lemma dispatch_ctx_Done_returns_witness :
  dispatch ([doneChan_recv 4]
            ++ dispatch_ctx_Done context_DeadlineExceeded
               :: [requestChan_closed None]) toy_empty
  = (toy_empty, [call_Remove 4], Returned (Some context_DeadlineExceeded)).
Proof.
  exact (dispatch_ctx_Done_returns [doneChan_recv 4] [requestChan_closed None]
           toy_empty toy_empty [call_Remove 4] context_DeadlineExceeded
           eq_refl).
Defined.

Lemma dispatch_removes_done_witness :
  removed_ids [call_Remove 4; call_Remove 2] `prefix_of`
    done_ids [doneChan_recv 4; doneChan_recv 2]
  ∧ (Blocked = Blocked →
     removed_ids [call_Remove 4; call_Remove 2]
     = done_ids [doneChan_recv 4; doneChan_recv 2]).
Proof.
  exact (dispatch_removes_done [doneChan_recv 4; doneChan_recv 2] toy_empty
           _ _ _ eq_refl).
Defined.

Lemma unknown_frame_session_status_witness :
  let x := {| send_exit := Some io_EOF; receive_exit := None;
              dispatch_exit :=
                Some (status_error codes_Internal
                        "unhandled request type <nil>") |} in
  dispatch ([doneChan_recv 4]
            ++ requestChan_recv {| Request := None |}
               :: [requestChan_closed None]) toy_empty
  = (toy_empty, [call_Remove 4],
     Returned (Some (status_error codes_Internal
                       "unhandled request type <nil>")))
  ∧ Proxy x ([receive_task] ++ dispatch_task :: [send_task])
    = Some (status_error codes_Internal
              "rpc error: code = Internal desc = unhandled request type <nil>").
Proof.
  intros x.
  assert (Hpre : dispatch [doneChan_recv 4] toy_empty
                 = (toy_empty, [call_Remove 4], Blocked)) by reflexivity.
  destruct (unknown_frame_session_status [doneChan_recv 4]
              [requestChan_closed None] toy_empty toy_empty [call_Remove 4]
              {| Request := None |} Hpre eq_refl) as [Hrun Hstatus].
  split; [exact Hrun|].
  apply (Hstatus x [receive_task] [send_task]); [reflexivity|].
  by repeat constructor.
Defined.

End ServerExtra.

(** ** Further properties of the emitted client code *)

Module GeneratedExtra.
Import Generated GeneratedStream Observations GeneratedProps.

Section Emitted.
Context {In Out S : Type}.
Context `{!Method In Out, !ClientConn In Out, !grpc_ClientStream In Out S}.
Context `{!StreamConn S}.

(** A typed response keeps the target and the index of the raw reply; its
    error is nil exactly when the reply carried none and its payload
    decoded; a reply that carries an error is passed on with that error
    and an empty message; otherwise the message is what the decoder left. *)
Theorem typed_fields (r : Ret) :
  Target (typed r) = Ret_Target r
  ∧ Index (typed r) = Ret_Index r
  ∧ (Error (typed r) = None
     ↔ Ret_Error r = None ∧ (UnmarshalTo (Ret_Resp r) zero_Out).2 = None)
  ∧ (∀ e, Ret_Error r = Some e →
       Error (typed r) = Some e ∧ Resp (typed r) = zero_Out)
  ∧ (Ret_Error r = None →
       Resp (typed r) = (UnmarshalTo (Ret_Resp r) zero_Out).1).
Proof.
  unfold typed. destruct (Ret_Error r) as [e|] eqn:Herr; simpl.
  - split_and!; [done|done| |by intros e' [= <-]|done].
    split; [done|]. by intros [? _].
  - destruct (UnmarshalTo (Ret_Resp r) zero_Out) as [resp [e|]]; simpl.
    + split_and!; [done|done| |done|done]. split; [done|]. by intros [_ ?].
    + by split_and!.
Qed.

(** On a proxied connection one [Recv] is one [RecvMsg]: an error of
    [RecvMsg] is returned with no response, and a batch is returned as one
    typed response for each raw reply, in the order of the batch and with
    the same targets and indices.  [directDone] is never set. *)
Theorem Recv_proxied (x : ClientProxy S) :
  Direct (cc x) = false →
  let '(s, m, err) := RecvMsg_rets (ClientStream x) [] in
  let x' := {| cc := cc x; directDone := directDone x; ClientStream := s |} in
  match err with
  | Some e => Recv x = Done (x', ([], Some e))
  | None =>
      ∃ ret, Recv x = Done (x', (ret, None))
             ∧ ret = typed <$> m
             ∧ Target <$> ret = Ret_Target <$> m
             ∧ Index <$> ret = Ret_Index <$> m
  end.
Proof.
  intros Hdirect. unfold Recv. rewrite Hdirect.
  destruct (RecvMsg_rets (ClientStream x) []) as [[s m] [e|]]; [done|].
  exists (typed <$> m). rewrite append_typed_fmap. split_and!; try done.
  - rewrite <- list_fmap_compose. apply list_fmap_ext. intros i r _.
    apply typed_fields.
  - rewrite <- list_fmap_compose. apply list_fmap_ext. intros i r _.
    apply typed_fields.
Qed.

Lemma all_eof_empty : all_eof ∅ = true.
Proof. unfold all_eof. by rewrite map_fold_empty. Qed.

(** On a proxied connection with no target configured, [CloseAndRecv]
    half-closes the stream and returns no response and no error without
    reading from it. *)
Theorem CloseAndRecv_no_targets (fuel : nat) (x : ClientProxy S) (s : S) :
  Direct (cc x) = false →
  Targets (cc x) = [] →
  CloseSend (ClientStream x) = (s, None) →
  CloseAndRecv (Datatypes.S fuel) x
  = Done ({| cc := cc x; directDone := directDone x; ClientStream := s |},
          ([], None)).
Proof.
  intros Hdirect Htargets Hclose. unfold CloseAndRecv.
  rewrite Hclose. simpl. rewrite Hdirect, Htargets.
  unfold eof_init. simpl. by rewrite all_eof_empty.
Qed.

(** On a direct connection [CloseAndRecv] half-closes the stream, makes
    one [RecvMsg] call and returns the one response built from it, error
    included, whatever the bound on its loop: the loop is not entered. *)
Theorem CloseAndRecv_direct (fuel : nat) (x : ClientProxy S) (target : string)
    (s s' : S) (m : Out) (err : option error) :
  Direct (cc x) = true →
  Targets (cc x) = [target] →
  directDone x = false →
  CloseSend (ClientStream x) = (s, None) →
  RecvMsg_typed s zero_Out = (s', m, err) →
  CloseAndRecv fuel x
  = Done ({| cc := cc x; directDone := if err is Some _ then true else false;
             ClientStream := s' |},
          ([{| Target := target; Index := 0; Resp := m; Error := err |}], None)).
Proof.
  intros Hdirect Htargets Hdone Hclose Hrecv. unfold CloseAndRecv.
  rewrite Hclose. simpl. rewrite Hdirect. unfold recv_direct. simpl.
  rewrite Hdone, Hrecv, Htargets. simpl. by destruct err.
Qed.

Lemma CloseAndRecv_loop_more_fuel (fuel fuel' : nat) (eof : gmap Z bool)
    (x : ClientProxy S) ret r :
  (fuel ≤ fuel')%nat →
  CloseAndRecv_loop fuel eof x ret = Done r →
  CloseAndRecv_loop fuel' eof x ret = Done r.
Proof.
  revert fuel' x ret.
  induction fuel as [|fuel IH]; intros fuel' x ret Hle; [done|].
  destruct fuel' as [|fuel']; [lia|]. simpl.
  destruct (all_eof eof); [done|].
  destruct (RecvMsg_rets (ClientStream x) []) as [[s m] [e|]]; [done|].
  apply IH. lia.
Qed.

(** What [CloseAndRecv] returns does not depend on the bound put on its
    loop: a larger bound gives the same result. *)
Theorem CloseAndRecv_more_fuel (fuel fuel' : nat) (x : ClientProxy S) r :
  (fuel ≤ fuel')%nat →
  CloseAndRecv fuel x = Done r →
  CloseAndRecv fuel' x = Done r.
Proof.
  intros Hle. unfold CloseAndRecv.
  destruct (CloseSend (ClientStream x)) as [s [e|]]; [done|]. simpl.
  destruct (Direct (cc x)); [done|].
  by apply CloseAndRecv_loop_more_fuel.
Qed.

Lemma CloseAndRecv_loop_returns (n : nat) (eof : gmap Z bool)
    (x : ClientProxy S) ret :
  RecvMsg_fails_within n (ClientStream x) = true →
  ∃ r, CloseAndRecv_loop n eof x ret = Done r.
Proof.
  revert x ret. induction n as [|n IH]; intros x ret; simpl; [done|].
  destruct (all_eof eof); [by eexists|].
  destruct (RecvMsg_rets (ClientStream x) []) as [[s m] [e|]]; [by eexists|].
  intros Hfails. by apply IH.
Qed.

(** [CloseAndRecv] returns as soon as a [RecvMsg] call fails: when one of
    the first [n] calls on the half-closed stream returns an error, the
    loop has returned within [n] turns. *)
Theorem CloseAndRecv_returns (n : nat) (x : ClientProxy S) :
  Direct (cc x) = false →
  RecvMsg_fails_within n (CloseSend (ClientStream x)).1 = true →
  ∃ r, CloseAndRecv n x = Done r.
Proof.
  intros Hdirect. unfold CloseAndRecv.
  destruct (CloseSend (ClientStream x)) as [s [e|]]; simpl; [by eexists|].
  rewrite Hdirect. intros Hfails. by apply CloseAndRecv_loop_returns.
Qed.

(** With any number of targets other than one, the unary [OneMany] makes
    one [InvokeOneMany] call and no [Invoke] call; an error of that call
    is returned with no channel; otherwise the channel delivers one typed
    response for each raw reply, in order, and is closed exactly when the
    raw channel is. *)
Theorem OneMany_multiplexed (conn : Conn) (in_ : In) :
  length (Targets conn) ≠ 1%nat →
  let '(manyRet, err) := InvokeOneMany conn full_method in_ in
  OneMany conn in_
  = ([call_InvokeOneMany full_method],
     match err with
     | Some e => (None, Some e)
     | None => (Some (mk_chan (typed <$> items manyRet) (closed manyRet)), None)
     end).
Proof.
  intros Hlen. unfold OneMany.
  destruct (InvokeOneMany conn full_method in_) as [manyRet [e|]];
    destruct (Targets conn) as [|t [|t' ts]]; try done;
    by rewrite ?convert_goroutine_fmap.
Qed.

(** The streaming [OneMany] calls [NewStream] first; when that fails it
    returns its error and no handle and makes no other call.  For a
    client-streaming method it then returns the handle and sends nothing.
    For any other method it calls [SendMsg(in)] and then [CloseSend], in
    that order; the first of the two that fails ends the call with its
    error and no handle, no call being made after it.  A handle is
    returned exactly when no error is; it is for the given connection,
    on the stream as those calls left it, and not done. *)
Theorem OneMany_stream_calls (streamingClient : bool) (numStreams : nat)
    (conn : Conn) (in_ : In) :
  let run := OneMany_stream streamingClient numStreams conn in_ in
  let opened := (NewStream conn numStreams full_method).1 in
  let sent := (SendMsg opened in_).1 in
  let half_closed := (CloseSend sent).1 in
  let handle s := {| cc := conn; directDone := false; ClientStream := s |} in
  (∀ e, (NewStream conn numStreams full_method).2 = Some e →
     run = ([call_NewStream numStreams full_method], (None, Some e)))
  ∧ ((NewStream conn numStreams full_method).2 = None →
     streamingClient = true →
     run = ([call_NewStream numStreams full_method],
            (Some (handle opened), None)))
  ∧ (∀ e, (NewStream conn numStreams full_method).2 = None →
       streamingClient = false →
       (SendMsg opened in_).2 = Some e →
       run = ([call_NewStream numStreams full_method; call_SendMsg],
              (None, Some e)))
  ∧ (∀ e, (NewStream conn numStreams full_method).2 = None →
       streamingClient = false →
       (SendMsg opened in_).2 = None →
       (CloseSend sent).2 = Some e →
       run = ([call_NewStream numStreams full_method; call_SendMsg;
               call_CloseSend], (None, Some e)))
  ∧ ((NewStream conn numStreams full_method).2 = None →
     streamingClient = false →
     (SendMsg opened in_).2 = None →
     (CloseSend sent).2 = None →
     run = ([call_NewStream numStreams full_method; call_SendMsg;
             call_CloseSend], (Some (handle half_closed), None)))
  ∧ (run.2.1 = None ↔ run.2.2 ≠ None).
Proof.
  intros run opened sent half_closed handle.
  subst run opened sent half_closed handle. unfold OneMany_stream.
  destruct (NewStream conn numStreams full_method) as [s0 [e0|]]; simpl.
  { split_and!; try done. by intros e [= <-]. }
  destruct streamingClient; simpl.
  { by split_and!. }
  destruct (SendMsg s0 in_) as [s1 [e1|]]; simpl.
  { split_and!; try done. by intros e _ _ [= <-]. }
  destruct (CloseSend s1) as [s2 [e2|]]; simpl.
  { split_and!; try done. by intros e _ _ _ [= <-]. }
  by split_and!.
Qed.

End Emitted.

Import Scenario Scenario2.

Lemma scripted_Recv_calls_done (n : nat) (x : ClientProxy script) :
  Direct (cc x) = true → directDone x = true →
  Recv_calls n x = replicate n (Done ([], Some io_EOF)).
Proof.
  intros Hdirect Hdone. induction n as [|n IH]; [done|].
  simpl. unfold Recv at 1, recv_direct. rewrite Hdirect, Hdone.
  by rewrite IH.
Qed.

(** A server-streaming call on a direct connection, read to its end: for
    a stream that delivers the messages [msgs] and then fails with [e],
    the successive [Recv] calls return one response for each message, then
    one response that carries [e], then [io.EOF] for ever. *)
Theorem Recv_direct_sequence (target : string) (msgs : list Z) (last : Z)
    (e : error) (n : nat) :
  let stream :=
    {| typed_msgs := ((λ m, (m, None)) <$> msgs) ++ [(last, Some e)];
       ret_batches := []; CloseSend_err := None |} in
  let x := {| cc := {| Targets := [target]; direct := true |};
              directDone := false; ClientStream := stream |} in
  Recv_calls (length msgs + 1 + n) x
  = ((λ m, Done ([{| Target := target; Index := 0; Resp := m;
                     Error := None |}], None)) <$> msgs)
    ++ [Done ([{| Target := target; Index := 0; Resp := last;
                  Error := Some e |}], None)]
    ++ replicate n (Done ([], Some io_EOF)).
Proof.
  induction msgs as [|m msgs IH]; intros stream x.
  - subst stream x. cbn [length Nat.add Recv_calls].
    unfold Recv at 1, recv_direct. simpl.
    by rewrite scripted_Recv_calls_done.
  - subst stream x. cbn [length Nat.add Recv_calls].
    unfold Recv at 1, recv_direct. csimpl.
    apply (f_equal2 cons); [done|]. apply IH.
Qed.

Lemma OneMany_stream_calls_witness :
  OneMany_stream false 2 {| Targets := []; direct := false |} 7
  = ([call_NewStream 2 "/S/M"],
     (None, Some (status_error codes_Unavailable "no targets")))
  ∧ OneMany_stream false 2 two_targets 7
    = ([call_NewStream 2 "/S/M"; call_SendMsg; call_CloseSend],
       (Some {| cc := two_targets; directDone := false;
                ClientStream :=
                  {| typed_msgs := [(1, None); (2, None)]; ret_batches := [];
                     CloseSend_err := None |} |}, None)).
Proof.
  split.
  - destruct (OneMany_stream_calls false 2 {| Targets := []; direct := false |} 7)
      as (Hfail & _).
    apply (Hfail (status_error codes_Unavailable "no targets")). reflexivity.
  - destruct (OneMany_stream_calls false 2 two_targets 7)
      as (_ & _ & _ & _ & Hok & _).
    apply Hok; reflexivity.
Defined.

Lemma CloseAndRecv_only_fails_witness :
  ∃ e, ([] : list (ManyResponse Z), Some io_EOF) = ([], Some e).
Proof.
  assert (Hrun : CloseAndRecv 4 two_targets_call
                 = Done ({| cc := two_targets; directDone := false;
                            ClientStream :=
                              {| typed_msgs := []; ret_batches := [];
                                 CloseSend_err := None |} |},
                         ([], Some io_EOF))) by (vm_compute; reflexivity).
  apply (CloseAndRecv_only_fails 4 two_targets_call _ _ eq_refl
           ltac:(discriminate) Hrun).
Defined.

Lemma Recv_proxied_witness :
  ∃ ret,
    Recv two_targets_call
    = Done ({| cc := two_targets; directDone := false;
               ClientStream :=
                 {| typed_msgs := [];
                    ret_batches := [([closing "A" 0], None);
                                    ([closing "B" 1], None)];
                    CloseSend_err := None |} |}, (ret, None))
    ∧ ret = typed <$> [answer "A" 0; answer "B" 1]
    ∧ Target <$> ret = Ret_Target <$> [answer "A" 0; answer "B" 1]
    ∧ Index <$> ret = Ret_Index <$> [answer "A" 0; answer "B" 1].
Proof. exact (Recv_proxied two_targets_call eq_refl). Defined.

Lemma CloseAndRecv_no_targets_witness :
  let x := {| cc := {| Targets := []; direct := false |}; directDone := false;
              ClientStream := two_targets_stream |} in
  CloseAndRecv 1 x = Done (x, ([], None)).
Proof.
  intros x.
  exact (CloseAndRecv_no_targets 0 x two_targets_stream eq_refl eq_refl eq_refl).
Defined.

Lemma CloseAndRecv_direct_witness :
  let stream := {| typed_msgs := [(42, None)]; ret_batches := [];
                   CloseSend_err := None |} in
  let x := {| cc := {| Targets := ["T"]; direct := true |};
              directDone := false; ClientStream := stream |} in
  CloseAndRecv 0 x
  = Done ({| cc := cc x; directDone := false;
             ClientStream := {| typed_msgs := []; ret_batches := [];
                                CloseSend_err := None |} |},
          ([{| Target := "T"; Index := 0; Resp := 42; Error := None |}], None)).
Proof.
  intros stream x.
  exact (CloseAndRecv_direct 0 x "T" stream _ 42 None
           eq_refl eq_refl eq_refl eq_refl eq_refl).
Defined.

Lemma CloseAndRecv_more_fuel_witness :
  CloseAndRecv 9 two_targets_call
  = Done ({| cc := two_targets; directDone := false;
             ClientStream := {| typed_msgs := []; ret_batches := [];
                                CloseSend_err := None |} |},
          ([], Some io_EOF)).
Proof.
  apply (CloseAndRecv_more_fuel 4 9 two_targets_call); [lia|].
  vm_compute; reflexivity.
Defined.

Lemma CloseAndRecv_returns_witness :
  ∃ r, CloseAndRecv 4 two_targets_call = Done r.
Proof.
  apply (CloseAndRecv_returns 4 two_targets_call); reflexivity.
Defined.

Lemma OneMany_multiplexed_witness :
  OneMany {| Targets := []; direct := false |} 5
  = ([call_InvokeOneMany "/S/M"], (Some (mk_chan [] true), None)).
Proof.
  exact (OneMany_multiplexed {| Targets := []; direct := false |} 5
           ltac:(discriminate)).
Defined.

End GeneratedExtra.

Module GeneratorProps.
Import Generator Observations.

Lemma string_app_assoc (a b c : string) : (a +:+ b) +:+ c = a +:+ (b +:+ c).
Proof.
  induction a as [|ch a IH]; [done|].
  change (String ch ((a +:+ b) +:+ c) = String ch (a +:+ (b +:+ c))).
  by rewrite IH.
Qed.

Lemma string_app_nil_r (a : string) : a +:+ "" = a.
Proof.
  induction a as [|ch a IH]; [done|].
  change (String ch (a +:+ "") = String ch a). by rewrite IH.
Qed.

Lemma string_app_nil_l (a : string) : "" +:+ a = a.
Proof. reflexivity. Qed.

Section Generator.
Context `{!GeneratedFile}.

Lemma methodSignature_func (structName other : string)
    (service : protogen_Service) (method : protogen_Method) :
  methodSignature true structName service method
  = func_prefix structName method
    +:+ methodSignature false other service method +:+ " {".
Proof.
  unfold methodSignature, func_prefix.
  destruct (unary method || serverOnly method), (negb (unary method));
    rewrite ?string_app_nil_l, ?string_app_nil_r, ?string_app_assoc;
    reflexivity.
Qed.

Lemma generate_method_app (service : protogen_Service)
    (clientStruct clientStructProxy : string) (out : list emitted)
    (numStreams : nat) (method : protogen_Method) :
  generate_method service clientStruct clientStructProxy
    (out, numStreams) method
  = (out ++ (generate_method service clientStruct clientStructProxy
               ([], numStreams) method).1,
     (numStreams + if unary method then 0 else 1)%nat).
Proof.
  unfold generate_method, unary, clientOnly.
  destruct (IsStreamingClient method), (IsStreamingServer method);
    cbn -[methodSignature String.append];
    rewrite <- ?app_assoc; f_equal; lia.
Qed.

Lemma method_blocks (service : protogen_Service)
    (clientStruct clientStructProxy : string) (numStreams : nat)
    (m : protogen_Method) :
  let blocks :=
    (generate_method service clientStruct clientStructProxy
       ([], numStreams) m).1 in
  omap stream_index blocks = (if unary m then [] else [numStreams])
  ∧ omap signature_line blocks
    = [methodSignature true clientStructProxy service m]
  ∧ mjoin (interface_lines <$> blocks) = []
  ∧ (Exists (λ e, is_RecvBody e = true) blocks ↔ unary m = false).
Proof.
  unfold generate_method, unary, clientOnly.
  destruct (IsStreamingClient m), (IsStreamingServer m);
    cbn -[methodSignature String.append];
    (split_and!; [reflexivity|reflexivity|reflexivity|]);
    rewrite ?Exists_cons, ?Exists_nil; cbn; intuition congruence.
Qed.

Lemma foldl_generate_method (service : protogen_Service)
    (clientStruct clientStructProxy : string) (methods : list protogen_Method)
    (out : list emitted) (numStreams : nat) :
  let run := foldl (generate_method service clientStruct clientStructProxy)
               (out, numStreams) methods in
  omap stream_index run.1
  = omap stream_index out
    ++ seq numStreams (length (filter (λ m, unary m = false) methods))
  ∧ omap signature_line run.1
    = omap signature_line out
      ++ (methodSignature true clientStructProxy service <$> methods)
  ∧ mjoin (interface_lines <$> run.1) = mjoin (interface_lines <$> out)
  ∧ (Exists (λ e, is_RecvBody e = true) run.1
     ↔ Exists (λ e, is_RecvBody e = true) out
       ∨ Exists (λ m, unary m = false) methods)
  ∧ (∃ blocks, run.1 = out ++ blocks).
Proof.
  revert out numStreams.
  induction methods as [|m methods IH]; intros out numStreams run.
  - subst run. cbn [foldl fst fmap list_fmap filter list_filter length seq].
    rewrite !app_nil_r, Exists_nil. split_and!; try done; [tauto|].
    exists []. by rewrite app_nil_r.
  - subst run. cbn [foldl]. rewrite generate_method_app.
    destruct (IH (out ++ (generate_method service clientStruct
                            clientStructProxy ([], numStreams) m).1)
                (numStreams + if unary m then 0 else 1)%nat)
      as (Hidx & Hsig & Hlines & Hbody & (blocks & Hblocks)).
    destruct (method_blocks service clientStruct clientStructProxy
                numStreams m) as (Bidx & Bsig & Blines & Bbody).
    split_and!.
    + rewrite Hidx, omap_app, Bidx, <- app_assoc. f_equal.
      rewrite filter_cons.
      destruct (unary m) eqn:Hu.
      * rewrite decide_False by done. simpl. f_equal. lia.
      * rewrite decide_True by done. simpl. do 3 f_equal. lia.
    + rewrite Hsig, omap_app, Bsig, <- app_assoc. done.
    + rewrite Hlines, fmap_app, join_app, Blines. by rewrite app_nil_r.
    + rewrite Hbody, Exists_app, Exists_cons, Bbody. tauto.
    + rewrite Hblocks, <- app_assoc. by eexists.
Qed.

Lemma generate_service_facts (out : list emitted) (service : protogen_Service) :
  omap stream_index (generate_service out service)
  = omap stream_index out
    ++ seq 0 (length (filter (λ m, unary m = false) (Methods service)))
  ∧ (Exists (λ e, is_RecvBody e = true) (generate_service out service)
     ↔ Exists (λ e, is_RecvBody e = true) out
       ∨ Exists (λ m, unary m = false) (Methods service))
  ∧ (∃ blocks, generate_service out service = out ++ blocks).
Proof.
  unfold generate_service.
  destruct (Methods service) as [|m methods] eqn:Hm.
  { cbn [filter list_filter length seq]. rewrite app_nil_r, Exists_nil.
    split_and!; [done|tauto|]. exists []. by rewrite app_nil_r. }
  match goal with
  | |- context [foldl (generate_method ?sv ?cs ?csp) (?o, ?n) ?ms] =>
      destruct (foldl_generate_method sv cs csp ms o n)
        as (Hidx & _ & _ & Hbody & (blocks & Hblocks))
  end.
  rewrite Hidx, Hbody, Hblocks. split_and!.
  - rewrite !omap_app. cbn [omap list_omap stream_index].
    by rewrite !app_nil_r.
  - rewrite !Exists_app, !Exists_cons, !Exists_nil.
    cbn [is_RecvBody]. intuition congruence.
  - rewrite <- !app_assoc. by eexists.
Qed.

(** The index into [ServiceDesc.Streams] that the generator writes for a
    streaming method is the number of streaming methods of the service
    before it: the indices of a service are 0, 1, 2, ... in the order of
    its streaming methods, whatever was generated before, and a unary
    method takes none. *)
Theorem stream_indices_consecutive (out : list emitted)
    (service : protogen_Service) :
  omap stream_index (generate_service out service)
  = omap stream_index out
    ++ seq 0 (length (filter (λ m, unary m = false) (Methods service))).
Proof. apply generate_service_facts. Qed.

(** The functions emitted on the handle of a method are the methods its
    interface declares, in the same order: [Send] when the method is
    client-streaming, and then exactly one of [Recv] (server-streaming or
    bidirectional) and [CloseAndRecv] (client-streaming only); a unary
    method gets neither interface nor functions.  The receive body is
    written once for a streaming method, with its loop exactly when it
    completes [CloseAndRecv]. *)
Theorem handle_implements_interface (service : protogen_Service)
    (clientStruct clientStructProxy : string) (numStreams : nat)
    (method : protogen_Method) :
  let blocks :=
    (generate_method service clientStruct clientStructProxy
       ([], numStreams) method).1 in
  mjoin (declared_methods <$> blocks) = omap func_name blocks
  ∧ omap func_name blocks
    = (if IsStreamingClient method then ["Send"] else [])
      ++ (if unary method then []
          else [if IsStreamingServer method then "Recv" else "CloseAndRecv"])
  ∧ omap recv_body_flag blocks
    = (if unary method then []
       else [negb (IsStreamingServer method)]).
Proof.
  unfold generate_method, unary, clientOnly.
  destruct (IsStreamingClient method), (IsStreamingServer method);
    cbn -[methodSignature String.append]; by split_and!.
Qed.

Lemma foldl_or {A} (p : A → bool) (l : list A) (b : bool) :
  foldl (λ acc x, if p x then true else acc) b l = b || existsb p l.
Proof.
  revert b. induction l as [|x l IH]; intros b; simpl.
  - by rewrite orb_false_r.
  - rewrite IH. by destruct b, (p x).
Qed.

Lemma needIO_true (file : protogen_File) :
  needIO file = true
  ↔ Exists (λ service, Exists (λ m, unary m = false) (Methods service))
      (Services file).
Proof.
  unfold needIO.
  assert (Hgen : ∀ services b,
    foldl (λ needIO service,
             foldl (λ needIO method,
                      if IsStreamingServer method || IsStreamingClient method
                      then true else needIO) needIO (Methods service))
          b services = true
    ↔ b = true
      ∨ Exists (λ service, Exists (λ m, unary m = false) (Methods service))
          services).
  { induction services as [|service services IH]; intros b; cbn [foldl].
    - rewrite Exists_nil. tauto.
    - rewrite IH, foldl_or, Exists_cons, orb_true_iff, existsb_exists.
      assert (Hex : (∃ m, In m (Methods service)
                          ∧ IsStreamingServer m || IsStreamingClient m = true)
                    ↔ Exists (λ m, unary m = false) (Methods service)).
      { rewrite Exists_exists. unfold unary.
        split; intros (m & Hin & Hm); exists m;
          (split; [by apply list_elem_of_In|]);
          destruct (IsStreamingClient m), (IsStreamingServer m); done. }
      rewrite Hex. tauto. }
  rewrite Hgen. intuition congruence.
Qed.

Lemma foldl_generate_service (services : list protogen_Service)
    (out : list emitted) :
  (Exists (λ e, is_RecvBody e = true) (foldl generate_service out services)
   ↔ Exists (λ e, is_RecvBody e = true) out
     ∨ Exists (λ service, Exists (λ m, unary m = false) (Methods service))
         services)
  ∧ (∃ rest, foldl generate_service out services = out ++ rest).
Proof.
  revert out. induction services as [|service services IH]; intros out.
  - cbn [foldl]. rewrite Exists_nil. split; [tauto|].
    exists []. by rewrite app_nil_r.
  - cbn [foldl].
    destruct (IH (generate_service out service)) as (Hbody & (rest & Hrest)).
    destruct (generate_service_facts out service)
      as (_ & Bbody & (blocks & Hblocks)).
    split.
    + rewrite Hbody, Bbody, Exists_cons. tauto.
    + rewrite Hrest, Hblocks, <- app_assoc. by eexists.
Qed.

(** The header imports [io] exactly when a receive body, the text that
    names [io.EOF], is written somewhere in the file. *)
Theorem io_imported_iff_used (file : protogen_File) (fn : string)
    (out : list emitted) :
  generate file = Some (fn, out) →
  ∃ rest,
    out = Header (GoPackageName file) (needIO file) :: rest
    ∧ (needIO file = true ↔ Exists (λ e, is_RecvBody e = true) rest).
Proof.
  unfold generate.
  destruct (Services file) as [|service services] eqn:Hs; [done|].
  rewrite <- Hs. intros [= <- <-].
  destruct (foldl_generate_service (Services file)
              [Header (GoPackageName file) (needIO file)])
    as (Hbody & (rest & Hrest)).
  exists rest. split; [done|].
  rewrite needIO_true. rewrite Hrest in Hbody. change ([?x] ++ rest) with (x :: rest) in Hbody.
  rewrite !Exists_cons, Exists_nil in Hbody. cbn [is_RecvBody] in Hbody.
  intuition congruence.
Qed.

(** Every method of a service is declared once in the proxy interface and
    implemented once on the proxy struct the generator declares, in the
    order of the methods, and the line that opens the implementation is
    the line of the interface between the comment with the receiver and
    the opening brace. *)
Theorem implementations_match_interface (service : protogen_Service) :
  Methods service ≠ [] →
  ∃ structName embeds,
    ProxyStruct structName embeds ∈ generate_service [] service
    ∧ mjoin (interface_lines <$> generate_service [] service)
      = (methodSignature false "" service <$> Methods service)
    ∧ omap signature_line (generate_service [] service)
      = ((λ m, func_prefix structName m
               +:+ methodSignature false "" service m +:+ " {")
           <$> Methods service).
Proof.
  intros Hne. unfold generate_service.
  destruct (Methods service) as [|m methods] eqn:Hm; [done|].
  rewrite <- Hm.
  match goal with
  | |- context [foldl (generate_method ?sv ?cs ?csp) (?o, ?n) ?ms] =>
      destruct (foldl_generate_method sv cs csp ms o n)
        as (_ & Hsig & Hlines & _ & (blocks & Hblocks));
      exists csp, cs
  end.
  rewrite Hsig, Hlines. split_and!.
  - rewrite Hblocks. rewrite !elem_of_app, !elem_of_cons. tauto.
  - cbn [app fmap list_fmap mjoin list_join interface_lines].
    by rewrite app_nil_r.
  - cbn [app omap list_omap signature_line].
    apply list_fmap_ext. intros i m' _. apply methodSignature_func.
Qed.

Lemma foldl_main (files : list protogen_File)
    (created : list (string * list emitted)) :
  (foldl (λ created file,
            if negb (Generate file) then created
            else match generate file with
                 | Some f => created ++ [f]
                 | None => created
                 end) created files).*1
  = created.*1
    ++ ((λ f, GeneratedFilenamePrefix f +:+ "_grpcproxy.pb.go")
          <$> List.filter creates_file files).
Proof.
  revert created. induction files as [|file files IH]; intros created.
  - cbn [foldl List.filter fmap list_fmap]. by rewrite app_nil_r.
  - cbn [foldl List.filter]. rewrite IH. unfold creates_file at 2, generate.
    destruct (Generate file); cbn [negb andb]; [|done].
    destruct (Services file); [done|].
    rewrite fmap_app, <- app_assoc. done.
Qed.

(** [main] creates one file for each input file that is marked for
    generation and declares a service, in input order and named after the
    input, and none for the others. *)
Theorem main_files (files : list protogen_File) :
  (main files).*1
  = ((λ f, GeneratedFilenamePrefix f +:+ "_grpcproxy.pb.go")
       <$> List.filter creates_file files).
Proof. unfold main. by rewrite foldl_main. Qed.

End Generator.

Import Scenario2.

Lemma io_imported_iff_used_witness :
  ∃ rest,
    (foldl generate_service [Header "t" true] [four_methods])
    = Header "t" true :: rest
    ∧ (true = true ↔ Exists (λ e, is_RecvBody e = true) rest).
Proof.
  exact (io_imported_iff_used four_methods_file "test_grpcproxy.pb.go" _
           eq_refl).
Defined.

Lemma implementations_match_interface_witness :
  ∃ structName embeds,
    ProxyStruct structName embeds ∈ generate_service [] four_methods
    ∧ mjoin (interface_lines <$> generate_service [] four_methods)
      = (methodSignature false "" four_methods <$> Methods four_methods)
    ∧ omap signature_line (generate_service [] four_methods)
      = ((λ m, func_prefix structName m
               +:+ methodSignature false "" four_methods m +:+ " {")
           <$> Methods four_methods).
Proof.
  apply (implementations_match_interface four_methods). discriminate.
Defined.

End GeneratorProps.
